(** * Streaming transcript aggregator of claude-code-telegram

    A shallow embedding of
    - [src/claude/agent.py]         ([ClaudeAgentClient.stream_message]), and
    - [src/bot/handlers/message.py] ([handle_text_message] with its closures
      [stream_handler], [_update_stream_message] and [keep_typing]),
    followed by the properties of the specification that concern them.

    Conventions.  A Python [str] is a list of Unicode code points, so that
    [len], slicing and the 4000-character windows count what Python counts.
    A Python [dict] with a fixed set of keys is a record; a key that may be
    missing is an [option] field and reading it with [d[k]] raises
    [KeyError].  Awaited calls on Telegram are answered by an environment
    [transport] that sees the whole history of calls.  The event loop's
    clock is read as a rational number of seconds. *)

From Stdlib Require Import Ascii String DecimalString DecimalPos DecimalZ QArith.
From stdpp Require Import gmap strings list.

Open Scope nat_scope.

(** ** Python strings *)

Module Py.

Abbreviation str := (list N).

(** An ASCII literal of the source. *)
Definition lit (s : string) : str :=
  (λ a, N_of_ascii a) <$> list_ascii_of_string s.

(** [str(n)] for a non-negative [int]. *)
Definition of_nat (n : nat) : str :=
  lit (NilZero.string_of_uint (Nat.to_uint n)).

(** [sep.join(parts)] *)
Fixpoint join (sep : str) (parts : list str) : str :=
  match parts with
  | [] => []
  | [p] => p
  | p :: rest => p ++ sep ++ join sep rest
  end.

(** [c.isspace()], after CPython's [_PyUnicode_IsWhitespace]. *)
Definition isspace (c : N) : bool :=
  ((9 <=? c) && (c <=? 13) || (28 <=? c) && (c <=? 32)
   || (c =? 133) || (c =? 160) || (c =? 5760)
   || (8192 <=? c) && (c <=? 8202)
   || (c =? 8232) || (c =? 8233) || (c =? 8239) || (c =? 8287)
   || (c =? 12288))%N.

Fixpoint lstrip (s : str) : str :=
  match s with
  | c :: s' => if isspace c then lstrip s' else s
  | [] => []
  end.

(** [s.strip()] *)
Definition strip (s : str) : str := reverse (lstrip (reverse (lstrip s))).

(** [s[a:b]] for [0 <= a <= b]. *)
Definition slice (s : str) (a b : nat) : str := take (b - a) (drop a s).

Fixpoint starts_with (p s : str) : bool :=
  match p, s with
  | [], _ => true
  | a :: p', b :: s' => (a =? b)%N && starts_with p' s'
  | _ :: _, [] => false
  end.

(** [needle in s] *)
Fixpoint contains (needle s : str) : bool :=
  starts_with needle s ||
  match s with
  | [] => false
  | _ :: s' => contains needle s'
  end.

(** Values found in a tool's JSON input. *)
#[warnings="-register-all"]
Inductive val :=
| VNone
| VStr (s : str)
| VNum (z : Z)
| VList (l : list val).

(** [bool(v)] *)
Definition truthy (v : val) : bool :=
  match v with
  | VNone => false
  | VStr s => bool_decide (s ≠ [])
  | VNum z => bool_decide (z ≠ 0%Z)
  | VList l => bool_decide (l ≠ [])
  end.

(** [a or b] *)
Definition or (a b : val) : val := if truthy a then a else b.

Abbreviation dict := (gmap str val).

(** [d.get(k)] *)
Definition get (d : dict) (k : string) : val := default VNone (d !! lit k).

End Py.

Notation "« s »" := (Py.lit s) (at level 0, format "« s »").

(** ** [claude_agent_sdk] messages and [StreamUpdate]

    The SDK's message classes and [claude/types.py] are imported by the
    sources; only the attributes the sources read or set are kept.  A
    [UserMessage] whose content is a plain string holds no block. *)

Inductive ContentBlock :=
| TextBlock (text : Py.str)
| ToolUseBlock (id name : Py.str) (input : Py.dict)
| ToolResultBlock (tool_use_id : Py.str) (is_error : option bool)
| ThinkingBlock (thinking : Py.str).

Inductive SDKMessage :=
| AssistantMessage (content : list ContentBlock)
| UserMessage (content : list ContentBlock)
| SystemMessage
| ResultMessage (is_error : bool) (result : option Py.str).

(** An entry of [StreamUpdate.tool_calls]: a dict read with [.get]. *)
Record ToolCall := {
  tc_name : option Py.str;
  tc_input : option Py.dict;
  tc_id : option Py.str;
  tc_tool_use_id : option Py.str;
  tc_is_error : option bool;
}.

Record StreamUpdate := {
  u_type : string;
  u_content : option Py.str;
  u_tool_calls : option (list ToolCall);
  u_progress : option nat;
  u_error_info : option Py.str;
}.

Definition progress_update (content : Py.str) (percentage : nat) : StreamUpdate :=
  {| u_type := "progress"; u_content := Some content; u_tool_calls := None;
     u_progress := Some percentage; u_error_info := None |}.

Definition text_update (delta : Py.str) : StreamUpdate :=
  {| u_type := "assistant"; u_content := Some delta; u_tool_calls := None;
     u_progress := None; u_error_info := None |}.

Definition tool_use_update (name : Py.str) (input : Py.dict) (id : Py.str)
  : StreamUpdate :=
  {| u_type := "assistant"; u_content := None;
     u_tool_calls := Some [ {| tc_name := Some name; tc_input := Some input;
                               tc_id := Some id; tc_tool_use_id := None;
                               tc_is_error := None |} ];
     u_progress := None; u_error_info := None |}.

Definition tool_result_entry (tool_use_id : Py.str) (is_error : option bool)
  : ToolCall :=
  {| tc_name := None; tc_input := None; tc_id := None;
     tc_tool_use_id := Some tool_use_id; tc_is_error := is_error |}.

Definition tool_result_update (results : list ToolCall) : StreamUpdate :=
  {| u_type := "tool_result"; u_content := None; u_tool_calls := Some results;
     u_progress := None; u_error_info := None |}.

Definition error_update (msg : Py.str) : StreamUpdate :=
  {| u_type := "error"; u_content := Some msg; u_tool_calls := None;
     u_progress := None; u_error_info := Some msg |}.

Definition result_update : StreamUpdate :=
  {| u_type := "result"; u_content := Some «"Task completed"»;
     u_tool_calls := None; u_progress := Some 100; u_error_info := None |}.

(** ** [agent.py]: the block tracker *)

Module Agent.

(** A value of [self.session_states]. *)
Record State := {
  total_blocks_seen : nat;
  current_text_content : Py.str;
}.

Definition fresh : State :=
  {| total_blocks_seen := 0; current_text_content := [] |}.

(** The loop variables of [stream_message]: the session's dict, the local
    [current_block_index], and the updates yielded so far. *)
Record Loop := {
  state : State;
  current_block_index : nat;
  yielded : list StreamUpdate;
}.

Definition yield (u : StreamUpdate) (l : Loop) : Loop :=
  {| state := state l; current_block_index := current_block_index l;
     yielded := yielded l ++ [u] |}.

(** One iteration of [for block in msg.content] (lines 102-136). *)
Definition process_block (l : Loop) (block : ContentBlock) : Loop :=
  let st := state l in
  let idx := current_block_index l in
  if idx <? total_blocks_seen st then
    {| state := st; current_block_index := idx + 1; yielded := yielded l |}
  else
    match block with
    | TextBlock text =>
        let delta := drop (length (current_text_content st)) text in
        match delta with
        | [] =>
            {| state := st; current_block_index := idx + 1;
               yielded := yielded l |}
        | _ :: _ =>
            {| state := {| total_blocks_seen := total_blocks_seen st;
                           current_text_content := text |};
               current_block_index := idx + 1;
               yielded := yielded l ++ [text_update delta] |}
        end
    | ToolUseBlock id name input =>
        {| state := {| total_blocks_seen := idx + 1;
                       current_text_content := [] |};
           current_block_index := idx + 1;
           yielded := yielded l ++ [tool_use_update name input id] |}
    | _ => l
    end.

Definition process_blocks (l : Loop) (content : list ContentBlock) : Loop :=
  foldl process_block l content.

(** The entries collected from a [UserMessage] (lines 140-146). *)
Definition tool_results (content : list ContentBlock) : list ToolCall :=
  omap (λ b, match b with
             | ToolResultBlock tid err => Some (tool_result_entry tid err)
             | _ => None
             end) content.

(** [str(msg.result)] *)
Definition str_result (r : option Py.str) : Py.str := default «"None"» r.

(** What the SDK's [receive_messages()] does next: hand over a message
    or raise. *)
Inductive Received :=
| Recv (msg : SDKMessage)
| Throw (e : Py.str).

(** [async for msg in client.receive_messages()] with the surrounding
    [try]/[except] (lines 93-178).  The list is what the SDK would
    deliver; the loop ends at a [ResultMessage] ([break]), at an
    exception, or when the SDK closes the stream. *)
Fixpoint receive_loop (l : Loop) (stream : list Received) : Loop :=
  match stream with
  | [] => l
  | Throw e :: _ => yield (error_update e) l
  | Recv msg :: rest =>
      match msg with
      | AssistantMessage content =>
          receive_loop (process_blocks l content) rest
      | UserMessage content =>
          match tool_results content with
          | [] => receive_loop l rest
          | results => receive_loop (yield (tool_result_update results) l) rest
          end
      | SystemMessage => receive_loop l rest
      | ResultMessage is_error result =>
          let l' :=
            {| state := {| total_blocks_seen := current_block_index l;
                           current_text_content :=
                             current_text_content (state l) |};
               current_block_index := current_block_index l;
               yielded := yielded l |} in
          if is_error then yield (error_update (str_result result)) l'
          else yield result_update l'
      end
  end.

(** One call of [stream_message]: [connect] is the exception, if any,
    raised while the client is opened and queried (before anything is
    yielded).  Returns the updates yielded and [self.session_states]
    afterwards. *)
Definition stream_message
    (session_states : gmap Py.str State) (session_id : Py.str)
    (connect : option Py.str) (stream : list Received)
  : list StreamUpdate * gmap Py.str State :=
  match connect with
  | Some e => ([error_update e], session_states)
  | None =>
      let st := default fresh (session_states !! session_id) in
      let l := receive_loop
                 {| state := st; current_block_index := 0;
                    yielded := [progress_update «"Starting Claude Agent..."» 0] |}
                 stream in
      (yielded l, <[session_id := state l]> session_states)
  end.

(** The text of the [assistant] updates that carry content, in order. *)
Definition text_deltas (us : list StreamUpdate) : list Py.str :=
  omap (λ u, if String.eqb (u_type u) "assistant" then u_content u else None) us.

(** A received item after which the loop goes on. *)
Definition continues (r : Received) : bool :=
  match r with
  | Recv (ResultMessage _ _) => false
  | Throw _ => false
  | Recv _ => true
  end.

(** The texts of successive blocks grow: each extends the one before, the
    first extends [prev]. *)
Fixpoint growing (prev : Py.str) (texts : list Py.str) : Prop :=
  match texts with
  | [] => True
  | text :: rest => prev `prefix_of` text ∧ growing text rest
  end.

End Agent.

(** ** [handlers/message.py]: event log, renderer and turn driver *)

Module Bot.

(** The values stored under ["status"]. *)
Inductive Status := running | done.

(** An entry of [stream_state["events"]]. *)
Inductive Event :=
| ToolEvent (name : option Py.str) (input : Py.dict) (id : option Py.str)
            (status : Status)
| TextEvent (content : Py.str).

(** A Telegram [Message] object, as returned by [reply_text]. *)
Abbreviation Handle := nat.

Inductive Call :=
| ReplyText (text : Py.str) (parse_mode : option string)
| EditText (msg : Handle) (text : Py.str) (parse_mode : option string).

Inductive Outcome :=
| Returns (msg : Handle)
| Raises (e : Py.str).

(** Exceptions that reach the [except Exception] of [stream_handler].  The
    messages Python gives the last three never contain the phrase the
    handler looks for. *)
Inductive Exn :=
| TelegramError (message : Py.str)
| KeyError (key : string)
| AttributeError
| TypeError.

Inductive Try (A : Type) :=
| Fine (a : A)
| Raise (e : Exn).
Arguments Fine {A} a.
Arguments Raise {A} e.

#[export] Instance try_ret : MRet Try := @Fine.
#[export] Instance try_bind : MBind Try :=
  λ A B f m, match m with Fine a => f a | Raise e => Raise e end.

(** The dict [stream_state].  [last_update_time] and [current_message] are
    keys the dict may lack; [update_lock] is an uncontended [asyncio.Lock]
    (one task drives the handler) and is left out.  [calls] and [renders]
    are not in the source: they record the Telegram calls awaited so far
    and how often [_update_stream_message] was entered. *)
Record StreamState := {
  accumulated_text : Py.str;
  events : list Event;
  messages : list Handle;
  message_contents : list Py.str;
  update_pending : bool;
  last_update_time : option Q;
  current_message : option Handle;
  calls : list Call;
  renders : nat;
}.

(** The dict bound to [stream_state] when the handler runs (lines 281-288,
    which rebind the variable first bound at lines 187-193). *)
Definition initial : StreamState :=
  {| accumulated_text := []; events := []; messages := [];
     message_contents := []; update_pending := false;
     last_update_time := None; current_message := None;
     calls := []; renders := 0 |}.

Definition set_events (evs : list Event) (s : StreamState) : StreamState :=
  {| accumulated_text := accumulated_text s; events := evs;
     messages := messages s; message_contents := message_contents s;
     update_pending := update_pending s;
     last_update_time := last_update_time s;
     current_message := current_message s;
     calls := calls s; renders := renders s |}.

Definition set_sent (msgs : list Handle) (contents : list Py.str)
    (s : StreamState) : StreamState :=
  {| accumulated_text := accumulated_text s; events := events s;
     messages := msgs; message_contents := contents;
     update_pending := update_pending s;
     last_update_time := last_update_time s;
     current_message := current_message s;
     calls := calls s; renders := renders s |}.

Definition set_last_update_time (t : Q) (s : StreamState) : StreamState :=
  {| accumulated_text := accumulated_text s; events := events s;
     messages := messages s; message_contents := message_contents s;
     update_pending := update_pending s;
     last_update_time := Some t;
     current_message := current_message s;
     calls := calls s; renders := renders s |}.

Definition set_current_message (m : Handle) (s : StreamState) : StreamState :=
  {| accumulated_text := accumulated_text s; events := events s;
     messages := messages s; message_contents := message_contents s;
     update_pending := update_pending s;
     last_update_time := last_update_time s;
     current_message := Some m;
     calls := calls s; renders := renders s |}.

Definition record_call (c : Call) (s : StreamState) : StreamState :=
  {| accumulated_text := accumulated_text s; events := events s;
     messages := messages s; message_contents := message_contents s;
     update_pending := update_pending s;
     last_update_time := last_update_time s;
     current_message := current_message s;
     calls := calls s ++ [c]; renders := renders s |}.

Definition record_render (s : StreamState) : StreamState :=
  {| accumulated_text := accumulated_text s; events := events s;
     messages := messages s; message_contents := message_contents s;
     update_pending := update_pending s;
     last_update_time := last_update_time s;
     current_message := current_message s;
     calls := calls s; renders := S (renders s) |}.

(** *** Event log (lines 204-249) *)

(** The dict appended for one tool call (lines 208-214). *)
Definition tool_event (tc : ToolCall) : Event :=
  ToolEvent (tc_name tc) (default ∅ (tc_input tc)) (tc_id tc) running.

(** The inner loop of lines 222-225: the first entry that is a tool with
    this id gets status [done], and the loop breaks. *)
Fixpoint mark_done (tool_id : option Py.str) (evs : list Event) : list Event :=
  match evs with
  | [] => []
  | ToolEvent name input id status :: rest =>
      if bool_decide (id = tool_id) then ToolEvent name input id done :: rest
      else ToolEvent name input id status :: mark_done tool_id rest
  | TextEvent content :: rest => TextEvent content :: mark_done tool_id rest
  end.

(** Lines 220-225, for every entry of the update. *)
Definition mark_results (results : list ToolCall) (evs : list Event)
  : list Event :=
  foldl (λ evs r, mark_done (tc_tool_use_id r) evs) evs results.

(** Lines 232-234. *)
Definition finish_event (e : Event) : Event :=
  match e with
  | ToolEvent name input id running => ToolEvent name input id done
  | _ => e
  end.

Definition finish_all (evs : list Event) : list Event := finish_event <$> evs.




(** Lines 243-249: [events[-1]["content"] += content], or an append. *)
Definition merge_text (content : Py.str) (evs : list Event) : list Event :=
  match last evs with
  | Some (TextEvent c) => <[pred (length evs) := TextEvent (c ++ content)]> evs
  | _ => evs ++ [TextEvent content]
  end.

(** *** Rendering (lines 313-369) *)

Definition TOOL_ICONS (name : option Py.str) : option Py.str :=
  if bool_decide (name = Some «"Bash"») then Some [128187%N]
  else if bool_decide (name = Some «"Read"») then Some [128196%N]
  else if bool_decide (name = Some «"ReadFile"») then Some [128196%N]
  else if bool_decide (name = Some «"Write"») then Some [9999%N; 65039%N]
  else if bool_decide (name = Some «"WriteFile"») then Some [9999%N; 65039%N]
  else if bool_decide (name = Some «"Edit"») then Some [128221%N]
  else if bool_decide (name = Some «"EditFile"») then Some [128221%N]
  else if bool_decide (name = Some «"Glob"») then Some [128269%N]
  else if bool_decide (name = Some «"LS"») then Some [128194%N]
  else if bool_decide (name = Some «"ls"») then Some [128194%N]
  else None.

Definition CHUNK_SIZE : nat := 4000.

(** [range(start, stop, step)] for a positive step, by counting up. *)
Fixpoint range_from (fuel start stop step : nat) : list nat :=
  match fuel with
  | 0 => []
  | S fuel' =>
      if start <? stop then start :: range_from fuel' (start + step) stop step
      else []
  end.

Definition range (stop step : nat) : list nat := range_from stop 0 stop step.

(** The least [n] with [a <= n * b], for [0 < b]. *)
Definition div_up (a b : nat) : nat := (a + (b - 1)) / b.

(** Line 369. *)
Definition split_chunks (combined_text : Py.str) : list Py.str :=
  (λ i, Py.slice combined_text i (i + CHUNK_SIZE))
    <$> range (length combined_text) CHUNK_SIZE.

Section WithEnvironment.

(** Python's [str()] on a value that is not a string, and Telegram's answer
    to a call given the calls made before it. *)
Variable py_str : Py.val → Py.str.
Variable transport : list Call → Call → Outcome.

Definition format_val (v : Py.val) : Py.str :=
  match v with
  | Py.VStr s => s
  | _ => py_str v
  end.

Definition backticked (s : Py.str) : Py.str := «": `"» ++ s ++ «"`"».

(** Lines 328-351. *)
Definition tool_details (tool_name : option Py.str) (tool_input : Py.dict)
  : Try Py.str :=
  if bool_decide (tool_name = Some «"Bash"»)
     && bool_decide (is_Some (tool_input !! «"command"»)) then
    match Py.get tool_input "command" with
    | Py.VStr command =>
        let cmd := Py.strip command in
        let cmd := if 40 <? length cmd then Py.slice cmd 0 37 ++ «"..."»
                   else cmd in
        Fine (backticked cmd)
    | _ => Raise AttributeError
    end
  else if bool_decide (tool_name ∈ Some <$> [«"Read"»; «"ReadFile"»; «"Write"»;
                                            «"WriteFile"»; «"Edit"»; «"EditFile"»])
  then
    let path := Py.or (Py.or (Py.get tool_input "path")
                             (Py.get tool_input "file_path"))
                      (Py.get tool_input "file") in
    path ←
      (if negb (Py.truthy path)
          && bool_decide (is_Some (tool_input !! «"paths"»)) then
         match Py.get tool_input "paths" with
         | Py.VList (first :: more) =>
             match first with
             | Py.VStr p =>
                 Fine (Py.VStr
                         (p ++ match more with
                               | [] => []
                               | _ => «" (+"» ++ Py.of_nat (length more) ++ «")"»
                               end))
             | _ => Raise TypeError
             end
         | _ => Fine path
         end
       else Fine path);
    Fine (if Py.truthy path then backticked (format_val path) else [])
  else if bool_decide (tool_name = Some «"Glob"») then
    let pattern := Py.or (Py.get tool_input "pattern")
                         (Py.get tool_input "include") in
    Fine (if Py.truthy pattern then backticked (format_val pattern) else [])
  else Fine [].

(** Line 353, with lines 320-326. *)
Definition tool_line (tool_counter : nat) (name : option Py.str)
    (status : Status) (details : Py.str) : Py.str :=
  let status_icon := match status with
                     | running => [9203%N]
                     | done => [10003%N]
                     end in
  let type_icon := default [128295%N] (TOOL_ICONS name) in
  Py.of_nat tool_counter ++ «". "» ++ status_icon ++ «" "» ++ type_icon
    ++ «" **"» ++ default «"None"» name ++ «"**"» ++ details.

Definition separator : Py.str := [10%N] ++ «"---"» ++ [10%N].

(** The loop of lines 318-360, returning [message_parts]. *)
Fixpoint message_parts (evs : list Event) (tool_counter : nat)
    (has_separator : bool) : Try (list Py.str) :=
  match evs with
  | [] => Fine []
  | ToolEvent name input _ status :: rest =>
      details ← tool_details name input;
      parts ← message_parts rest (S tool_counter) false;
      Fine (tool_line (S tool_counter) name status details :: parts)
  | TextEvent content :: rest =>
      if (0 <? tool_counter) && negb has_separator then
        parts ← message_parts rest tool_counter true;
        Fine (separator :: content :: parts)
      else
        parts ← message_parts rest tool_counter has_separator;
        Fine (content :: parts)
  end.

(** Line 362. *)
Definition combined_text (evs : list Event) : Try Py.str :=
  parts ← message_parts evs 0 false;
  Fine (Py.join [10%N] parts).

(** *** Sending (lines 372-398) *)

(** The body of [for i, chunk in enumerate(chunks)] for one chunk.  The
    second component is the exception that leaves the loop, if any. *)
Definition update_chunk (i : nat) (chunk : Py.str) (s : StreamState)
  : StreamState * option Exn :=
  if i <? length (messages s) then
    if (i <? length (message_contents s))
       && bool_decide (message_contents s !! i = Some chunk) then (s, None)
    else
      match messages s !! i with
      | Some m =>
          let c := EditText m chunk (Some "Markdown"%string) in
          match transport (calls s) c with
          | Returns _ =>
              let contents :=
                if i <? length (message_contents s)
                then <[i := chunk]> (message_contents s)
                else message_contents s ++ [chunk] in
              (set_sent (messages s) contents (record_call c s), None)
          | Raises _ => (record_call c s, None)
          end
      | None => (s, None)
      end
  else
    let c := ReplyText chunk (Some "Markdown"%string) in
    match transport (calls s) c with
    | Returns m =>
        (set_sent (messages s ++ [m]) (message_contents s ++ [chunk])
           (record_call c s), None)
    | Raises e => (record_call c s, Some (TelegramError e))
    end.

Fixpoint update_chunks (i : nat) (chunks : list Py.str) (s : StreamState)
  : StreamState * option Exn :=
  match chunks with
  | [] => (s, None)
  | chunk :: rest =>
      match update_chunk i chunk s with
      | (s', None) => update_chunks (S i) rest s'
      | (s', Some e) => (s', Some e)
      end
  end.

(** [_update_stream_message] (lines 304-398). *)
Definition update_stream_message (s : StreamState) : StreamState * option Exn :=
  let s := record_render s in
  match events s with
  | [] => (s, None)
  | _ :: _ =>
      match combined_text (events s) with
      | Raise e => (s, Some e)
      | Fine text =>
          match Py.strip text with
          | [] => (s, None)
          | _ :: _ => update_chunks 0 (split_chunks text) s
          end
      end
  end.

(** *** [stream_handler] (lines 195-278) *)

Definition nonempty {A} (o : option (list A)) : bool :=
  match o with
  | Some (_ :: _) => true
  | _ => false
  end.

(** The [try] block, lines 198-254. *)
Definition handle_update (current_time : Q) (u : StreamUpdate)
    (s : StreamState) : StreamState * option Exn :=
  if String.eqb (u_type u) "assistant" && nonempty (u_tool_calls u) then
    update_stream_message
      (set_events (events s ++ (tool_event <$> default [] (u_tool_calls u))) s)
  else if String.eqb (u_type u) "tool_result" && nonempty (u_tool_calls u) then
    update_stream_message
      (set_events (mark_results (default [] (u_tool_calls u)) (events s)) s)
  else if String.eqb (u_type u) "result" then
    update_stream_message (set_events (finish_all (events s)) s)
  else if String.eqb (u_type u) "assistant" && nonempty (u_content u) then
    let content := default [] (u_content u) in
    let s := set_events (merge_text content (events s)) s in
    match last_update_time s with
    | None => (s, Some (KeyError "last_update_time"))
    | Some last =>
        if Qle_bool (1 # 2) (current_time - last) || (50 <? length content)
        then
          match update_stream_message s with
          | (s', None) => (set_last_update_time current_time s', None)
          | (s', Some e) => (s', Some e)
          end
        else (s, None)
    end
  else (s, None).

(** ["Can't parse entities" in str(e)] *)
Definition is_parse_error (e : Exn) : bool :=
  match e with
  | TelegramError message => Py.contains «"Can't parse entities"» message
  | _ => false
  end.

(** The [except] block, lines 256-278. *)
Definition on_exception (e : Exn) (s : StreamState) : StreamState :=
  if is_parse_error e then
    let content_for_retry := accumulated_text s in
    match current_message s with
    | None =>
        let c := ReplyText content_for_retry None in
        match transport (calls s) c with
        | Returns m => set_current_message m (record_call c s)
        | Raises _ => record_call c s
        end
    | Some m => record_call (EditText m content_for_retry None) s
    end
  else s.

Definition stream_handler (current_time : Q) (u : StreamUpdate)
    (s : StreamState) : StreamState :=
  match handle_update current_time u s with
  | (s', None) => s'
  | (s', Some e) => on_exception e s'
  end.

(** *** The turn (lines 401-506) *)







(** How [claude_integration.run_command] ends, as seen by its caller:
    it returns a response, or raises [ClaudeToolValidationError], or
    raises another exception. *)
Inductive RunOutcome :=
| Responded (content : Py.str)
| ToolValidationError (message : Py.str)
| Failed (message : Py.str).










(** [ResponseFormatter.format_claude_response], from [bot/utils]. *)
Variable format_claude_response : Py.str → list Py.str.


(** Lines 445-493. *)
Definition formatted_messages (outcome : RunOutcome) : list Py.str :=
  match outcome with
  | Responded content => format_claude_response content
  | ToolValidationError message => [message]
  | Failed message =>
      [ [10060%N] ++ « " **Error**" » ++ [10%N; 10%N]
        ++ « "An unexpected error occurred: " » ++ message ]
  end.

(** Lines 497-504. *)
Definition should_send (texts : list Py.str) (s : StreamState) : bool :=
  existsb (λ text, Py.contains [10060%N] text || Py.contains [128683%N] text)
          texts
  || bool_decide (messages s = []).











(** The handler applied to each delivery in turn. *)
Definition stream_updates (deliveries : list (Q * StreamUpdate))
    (s : StreamState) : StreamState :=
  foldl (λ s d, stream_handler d.1 d.2 s) s deliveries.

End WithEnvironment.

(** Telegram answers every call with a message. *)
Definition accepts (transport : list Call → Call → Outcome) : Prop :=
  ∀ history c, ∃ m, transport history c = Returns m.

(** Each sent message has its recorded content. *)
Definition aligned (s : StreamState) : Prop :=
  length (messages s) = length (message_contents s).

(** What a render pass and the [except] block leave alone. *)
Definition same_log (s s' : StreamState) : Prop :=
  events s' = events s ∧ renders s' = renders s
  ∧ last_update_time s' = last_update_time s.

End Bot.

(** ** Concrete sessions, turns and environments *)

Module Scenario.

Import Agent Bot.

Definition session : Py.str := «"session"».

(** Turn 1 streams one text block and completes; turn 2 replays it and
    streams a block that extends it. *)
Definition text_turn_1 : list Received :=
  [Recv (AssistantMessage [TextBlock «"Hel"»]); Recv (ResultMessage false None)].

Definition text_turn_2 : list Received :=
  [Recv (AssistantMessage [TextBlock «"Hel"»; TextBlock «"Hello"»]);
   Recv (ResultMessage false None)].

(** Turn 1 streams three tool blocks; turn 2 streams a single text block. *)
Definition tools_turn : list Received :=
  [Recv (AssistantMessage [ToolUseBlock «"a"» «"LS"» ∅;
                           ToolUseBlock «"b"» «"LS"» ∅;
                           ToolUseBlock «"c"» «"LS"» ∅]);
   Recv (ResultMessage false None)].

Definition short_turn : list Received :=
  [Recv (AssistantMessage [TextBlock «"hi"»]); Recv (ResultMessage false None)].

(** Turn 2 of the specification's resume scenario: blocks 0-2 again, then
    block 3. *)
Definition resumed_turn : list Received :=
  [Recv (AssistantMessage [ToolUseBlock «"a"» «"LS"» ∅;
                           ToolUseBlock «"b"» «"LS"» ∅;
                           ToolUseBlock «"c"» «"LS"» ∅]);
   Recv (AssistantMessage [TextBlock «"done"»]);
   Recv (ResultMessage false None)].

(** No scenario formats a value that is not a string. *)
Definition str_of_val : Py.val → Py.str := λ _, «"<value>"».

(** Telegram accepts every call; the message sent by the n-th call has
    handle n. *)
Definition accepting : list Call → Call → Outcome :=
  λ history _, Returns (length history).

(** Telegram accepts every [reply_text] and refuses every [edit_text]. *)
Definition refusing_edits : list Call → Call → Outcome :=
  λ history c,
    match c with
    | ReplyText _ _ => Returns (length history)
    | EditText _ _ _ => Raises «"Message to edit not found"»
    end.


Definition sixty : Py.str := replicate 60 120%N.

(** Two text updates 0.1 s apart, the second longer than 50 characters. *)
Definition two_texts : list (Q * StreamUpdate) :=
  [(10 # 1, text_update «"Hel"»); (101 # 10, text_update sixty)].



(** Three updates that each change the transcript and render at once. *)
Definition three_renders : list (Q * StreamUpdate) :=
  [(1 # 1, tool_use_update «"X"» ∅ «"1"»);
   (2 # 1, tool_use_update «"Y"» ∅ «"2"»);
   (3 # 1, result_update)].

(** The specification's scenario for the event log. *)
Definition hello_x (t1 t2 t3 t4 : Q) : list (Q * StreamUpdate) :=
  [(t1, text_update «"Hel"»); (t2, text_update «"lo"»);
   (t3, tool_use_update «"X"» ∅ «"1"»);
   (t4, tool_result_update [tool_result_entry «"1"» None])].

End Scenario.


(** ** Vocabulary for the block tracker *)

Module AgentLaws.

Import Agent.

(** The blocks the cursor counts once it has caught up: lines 108 and 122. *)
Definition counted (block : ContentBlock) : bool :=
  match block with
  | TextBlock _ => true
  | ToolUseBlock _ _ _ => true
  | _ => false
  end.

(** The content blocks of the assistant messages of a stream, in order. *)
Definition assistant_blocks (stream : list Received) : list ContentBlock :=
  stream ≫= λ r, match r with
                 | Recv (AssistantMessage content) => content
                 | _ => []
                 end.

(** An update that ends a turn. *)
Definition terminal (u : StreamUpdate) : bool :=
  String.eqb (u_type u) "result" || String.eqb (u_type u) "error".

(** An update that surfaces a block or tool results. *)
Definition surfaced (u : StreamUpdate) : bool :=
  String.eqb (u_type u) "assistant" || String.eqb (u_type u) "tool_result".

(** The [tool_result] updates the user messages of a stream give rise to
    (lines 138-152), in order. *)
Definition user_results (stream : list Received) : list StreamUpdate :=
  omap (λ r, match r with
             | Recv (UserMessage content) =>
                 match tool_results content with
                 | [] => None
                 | results => Some (tool_result_update results)
                 end
             | _ => None
             end) stream.

(** The first received item at which the loop stops, if any. *)
Definition stop (stream : list Received) : option Received :=
  List.find (λ r, negb (continues r)) stream.

(** The update that answers the result message at which the loop stops
    (lines 158-169), when it stops at one. *)
Definition answer (stream : list Received) : list StreamUpdate :=
  match stop stream with
  | Some (Recv (ResultMessage is_error result)) =>
      [if is_error then error_update (str_result result) else result_update]
  | _ => []
  end.

(** The exception at which the loop stops, when it stops at one. *)
Definition thrown (stream : list Received) : option Py.str :=
  match stop stream with
  | Some (Throw e) => Some e
  | _ => None
  end.

End AgentLaws.

(** ** [agent.py]: leaving the [async with] block (lines 71-74, 172-178) *)

Module Closing.

Import Agent.

(** What the SDK client does around the loop, each [None] when the call
    returns and the exception's text when it raises: [enter] for
    [__aenter__] (line 72), [query] for [client.query] (line 74), [close]
    for [__aexit__], which is called whichever way the block is left.  An
    [__aexit__] that returns is taken not to swallow the exception of the
    block. *)
Record Client := {
  enter : option Py.str;
  query : option Py.str;
  close : option Py.str;
}.

(** The loop of lines 93-170 by itself: the loop variables it leaves and
    the exception that leaves it, if any. *)
Fixpoint receive_loop_raising (l : Loop) (stream : list Received)
  : Loop * option Py.str :=
  match stream with
  | [] => (l, None)
  | Throw e :: _ => (l, Some e)
  | Recv msg :: rest =>
      match msg with
      | AssistantMessage content =>
          receive_loop_raising (process_blocks l content) rest
      | UserMessage content =>
          match tool_results content with
          | [] => receive_loop_raising l rest
          | results =>
              receive_loop_raising (yield (tool_result_update results) l) rest
          end
      | SystemMessage => receive_loop_raising l rest
      | ResultMessage is_error result =>
          let l' :=
            {| state := {| total_blocks_seen := current_block_index l;
                           current_text_content :=
                             current_text_content (state l) |};
               current_block_index := current_block_index l;
               yielded := yielded l |} in
          (if is_error then yield (error_update (str_result result)) l'
           else yield result_update l', None)
      end
  end.

(** Leaving the [async with] block: the exception of [__aexit__] takes
    the place of the block's own. *)
Definition leave (close raised : option Py.str) : option Py.str :=
  match close with
  | Some e => Some e
  | None => raised
  end.

(** The [except] of lines 172-178. *)
Definition report (raised : option Py.str) (l : Loop) : Loop :=
  match raised with
  | Some e => yield (error_update e) l
  | None => l
  end.

(** One call of [stream_message] with the client's behaviour spelled
    out.  Before line 77 nothing was yielded and no state was created. *)
Definition stream_message_closing (client : Client)
    (session_states : gmap Py.str State) (session_id : Py.str)
    (stream : list Received)
  : list StreamUpdate * gmap Py.str State :=
  match enter client with
  | Some e => ([error_update e], session_states)
  | None =>
      match query client with
      | Some e =>
          (yielded (report (leave (close client) (Some e))
                      {| state := fresh; current_block_index := 0;
                         yielded := [] |}),
           session_states)
      | None =>
          let st := default fresh (session_states !! session_id) in
          let '(l, raised) :=
            receive_loop_raising
              {| state := st; current_block_index := 0;
                 yielded := [progress_update «"Starting Claude Agent..."» 0] |}
              stream in
          let l := report (leave (close client) raised) l in
          (yielded l, <[session_id := state l]> session_states)
      end
  end.

End Closing.


(** ** [context_manager.py] *)

Module ContextManager.

(** What the methods read of a Telegram [Update]: the id of the chat and
    the thread id of the message, [None] when there is no message or it
    lies in no thread.  (An update without a chat raises at line 22 and
    is not modelled.) *)
Record Update := {
  chat_id : Z;
  message_thread_id : option Z;
}.

(** [str(n)] for an [int]. *)
Definition str_of_int (n : Z) : Py.str :=
  Py.lit (NilZero.string_of_int (Z.to_int n)).

(** Lines 20-27. *)
Definition get_context_key (update : Update) : Py.str :=
  match message_thread_id update with
  | Some thread_id =>
      if bool_decide (thread_id ≠ 0%Z)
      then str_of_int (chat_id update) ++ «":"» ++ str_of_int thread_id
      else str_of_int (chat_id update)
  | None => str_of_int (chat_id update)
  end.

(** The dict kept per topic; every key may be missing.  A path is kept as
    its string. *)
Record TopicState := {
  current_directory : option Py.str;
  claude_session_id : option (option Py.str);
  session_started : option bool;
  pinned_message_id : option (option Z);
  current_status : option Py.str;
}.

Definition no_state : TopicState :=
  {| current_directory := None; claude_session_id := None;
     session_started := None; pinned_message_id := None;
     current_status := None |}.

(** [context.chat_data]: the key ["topic_states"], when present, holds the
    dict of topic states. *)
Abbreviation ChatData := (option (gmap Py.str TopicState)).

(** Lines 30-38: both dicts are created when missing; the topic's dict is
    returned, and [chat_data] is what the call leaves behind. *)
Definition get_state (chat_data : ChatData) (key : Py.str)
  : ChatData * TopicState :=
  let topic_states := default ∅ chat_data in
  let topic_states :=
    match topic_states !! key with
    | Some _ => topic_states
    | None => <[key := no_state]> topic_states
    end in
  (Some topic_states, default no_state (topic_states !! key)).

(** [state[k] = v] on the dict returned by [get_state]. *)
Definition assign (change : TopicState → TopicState) (update : Update)
    (chat_data : ChatData) : ChatData :=
  let key := get_context_key update in
  let '(chat_data, state) := get_state chat_data key in
  Some (<[key := change state]> (default ∅ chat_data)).

(** [state.get(k)] / [state.get(k, d)] on the dict returned by
    [get_state]. *)
Definition fetch {A} (read : TopicState → A) (update : Update)
    (chat_data : ChatData) : ChatData * A :=
  let '(chat_data, state) := get_state chat_data (get_context_key update) in
  (chat_data, read state).

(** Lines 41-47; [approved_directory] is [settings.approved_directory]. *)
Definition get_current_directory (approved_directory : Py.str) :=
  fetch (λ state, default approved_directory (current_directory state)).

(** Lines 50-56. *)
Definition set_current_directory (path : Py.str) :=
  assign (λ state,
    {| current_directory := Some path;
       claude_session_id := claude_session_id state;
       session_started := session_started state;
       pinned_message_id := pinned_message_id state;
       current_status := current_status state |}).

(** Lines 59-65. *)
Definition get_session_id :=
  fetch (λ state, default None (claude_session_id state)).

(** Lines 68-74. *)
Definition set_session_id (session_id : option Py.str) :=
  assign (λ state,
    {| current_directory := current_directory state;
       claude_session_id := Some session_id;
       session_started := session_started state;
       pinned_message_id := pinned_message_id state;
       current_status := current_status state |}).

(** Lines 77-83. *)
Definition get_session_started :=
  fetch (λ state, default false (session_started state)).

(** Lines 86-92. *)
Definition set_session_started (started : bool) :=
  assign (λ state,
    {| current_directory := current_directory state;
       claude_session_id := claude_session_id state;
       session_started := Some started;
       pinned_message_id := pinned_message_id state;
       current_status := current_status state |}).

(** Lines 95-101. *)
Definition get_pinned_message_id :=
  fetch (λ state, default None (pinned_message_id state)).

(** Lines 104-110. *)
Definition set_pinned_message_id (message_id : option Z) :=
  assign (λ state,
    {| current_directory := current_directory state;
       claude_session_id := claude_session_id state;
       session_started := session_started state;
       pinned_message_id := Some message_id;
       current_status := current_status state |}).

(** Lines 113-123. *)
Definition get_current_status :=
  fetch (λ state, default «"ready"» (current_status state)).

(** Lines 126-136. *)
Definition set_current_status (status : Py.str) :=
  assign (λ state,
    {| current_directory := current_directory state;
       claude_session_id := claude_session_id state;
       session_started := session_started state;
       pinned_message_id := pinned_message_id state;
       current_status := Some status |}).

(** The thread a key stands for: no thread and thread 0 share the chat's
    own key. *)
Definition thread_of (update : Update) : option Z :=
  match message_thread_id update with
  | Some thread_id => if bool_decide (thread_id ≠ 0%Z) then Some thread_id else None
  | None => None
  end.

(** The dict a key stands for, an empty one when it was never created. *)
Definition stored (chat_data : ChatData) (key : Py.str) : TopicState :=
  default no_state (default ∅ chat_data !! key).

(** Everything the five getters can tell about a topic. *)
Record Answers := {
  directory : Py.str;
  session : option Py.str;
  started : bool;
  pinned : option Z;
  status : Py.str;
}.

Definition answers (approved_directory : Py.str) (update : Update)
    (chat_data : ChatData) : Answers :=
  {| directory := (get_current_directory approved_directory update chat_data).2;
     session := (get_session_id update chat_data).2;
     started := (get_session_started update chat_data).2;
     pinned := (get_pinned_message_id update chat_data).2;
     status := (get_current_status update chat_data).2 |}.

End ContextManager.


(** ** Vocabulary for the event log and the renderer *)

Module BotLaws.

Import Bot.

(** What an update does to the event log (lines 204-249), without the
    rendering. *)
Definition log_step (u : StreamUpdate) (evs : list Event) : list Event :=
  if String.eqb (u_type u) "assistant" && nonempty (u_tool_calls u) then
    evs ++ (tool_event <$> default [] (u_tool_calls u))
  else if String.eqb (u_type u) "tool_result" && nonempty (u_tool_calls u) then
    mark_results (default [] (u_tool_calls u)) evs
  else if String.eqb (u_type u) "result" then finish_all evs
  else if String.eqb (u_type u) "assistant" && nonempty (u_content u) then
    merge_text (default [] (u_content u)) evs
  else evs.

(** An entry and what it may become: a tool entry keeps its name, input
    and id and never goes back from [done]; a text entry only gains
    characters at its end. *)
Definition evolves (e e' : Event) : Prop :=
  match e, e' with
  | ToolEvent name input id status, ToolEvent name' input' id' status' =>
      name' = name ∧ input' = input ∧ id' = id ∧ (status = done → status' = done)
  | TextEvent content, TextEvent content' => content `prefix_of` content'
  | _, _ => False
  end.

(** A log and a later log: the old entries evolved in place, new entries
    after them. *)
Definition extends (evs evs' : list Event) : Prop :=
  ∃ old new, evs' = old ++ new ∧ Forall2 evolves evs old.

Definition call_text (c : Call) : Py.str :=
  match c with
  | ReplyText text _ => text
  | EditText _ text _ => text
  end.

Definition call_mode (c : Call) : option string :=
  match c with
  | ReplyText _ parse_mode => parse_mode
  | EditText _ _ parse_mode => parse_mode
  end.

(** What the handler tells Telegram between two states: every new call
    satisfies [P], and [accumulated_text] is not touched. *)
Definition said (P : Call → Prop) (s s' : StreamState) : Prop :=
  accumulated_text s' = accumulated_text s
  ∧ ∃ new, calls s' = calls s ++ new ∧ Forall P new.

(** A Markdown call carrying one of these chunks. *)
Definition markdown_of (chunks : list Py.str) (c : Call) : Prop :=
  call_mode c = Some "Markdown"%string ∧ call_text c ∈ chunks.

(** A Markdown call with a text of 1 to 4000 characters. *)
Definition markdown_chunk (c : Call) : Prop :=
  call_mode c = Some "Markdown"%string ∧ 0 < length (call_text c) ≤ CHUNK_SIZE.

(** A call without parse mode and with the empty text. *)
Definition empty_plain (c : Call) : Prop :=
  call_mode c = None ∧ call_text c = [].

Section WithStr.

Variable py_str : Py.val → Py.str.

(** The parts of the display text, told by what precedes each entry: tool
    lines are numbered from [n + 1] on, and a text entry comes after a
    separator when the entry before it is a tool. *)
Fixpoint parts_by_neighbour (after_tool : bool) (n : nat) (evs : list Event)
  : Try (list Py.str) :=
  match evs with
  | [] => Fine []
  | ToolEvent name input _ status :: rest =>
      details ← tool_details py_str name input;
      parts ← parts_by_neighbour true (S n) rest;
      Fine (tool_line (S n) name status details :: parts)
  | TextEvent content :: rest =>
      parts ← parts_by_neighbour false n rest;
      Fine (if after_tool then separator :: content :: parts
            else content :: parts)
  end.

(** A tool entry whose summary line cannot be built. *)
Definition unprintable (e : Event) : Prop :=
  match e with
  | ToolEvent name input _ _ => ∃ x, tool_details py_str name input = Raise x
  | TextEvent _ => False
  end.

End WithStr.

End BotLaws.

Module MoreScenarios.

Import Agent Bot BotLaws.

(** A turn whose assistant message opens with a thinking block. *)
Definition thinking_turn : list Received :=
  [Recv (AssistantMessage [ThinkingBlock «"hm"»; TextBlock «"Hi"»;
                           ToolUseBlock «"a"» «"LS"» ∅]);
   Recv (ResultMessage false None)].

(** A turn with one tool call and its result. *)
Definition tool_round : list Received :=
  [Recv (AssistantMessage [ToolUseBlock «"a"» «"LS"» ∅]);
   Recv (UserMessage [ToolResultBlock «"a"» None]);
   Recv (ResultMessage false None)].

(** Telegram refuses every call that asks for Markdown with the error of
    a markup it cannot parse, and accepts the others. *)
Definition refusing_markdown : list Call → Call → Outcome :=
  λ history c,
    match call_mode c with
    | Some _ => Raises «"Can't parse entities: can't find end of the entity"»
    | None => Returns (length history)
    end.

End MoreScenarios.


(** ** [handlers/message.py]: sending the formatted response (lines 495-545) *)

Module Responses.

Import Bot.

(** A [FormattedMessage] of [bot/utils/formatting.py], by the attributes
    the loop reads; a keyboard is known by a number. *)
Record FormattedMessage := {
  text : Py.str;
  parse_mode : option string;
  reply_markup : option nat;
}.

(** A keyword argument that a call may leave out. *)
Inductive Arg (A : Type) :=
| Omitted
| Passed (a : A).
Arguments Omitted {A}.
Arguments Passed {A} a.

(** One call [update.message.reply_text(...)]. *)
Record Reply := {
  r_text : Py.str;
  r_parse_mode : Arg (option string);
  r_reply_markup : Arg (option nat);
  r_reply_to_message_id : option Z;
}.

(** A call with what became of it: [true] when Telegram took it. *)
Abbreviation Sent := (Reply * bool)%type.

Section WithTelegram.

(** Telegram's answer to a call, given the calls before it: [None] when it
    returns, the exception's text when it raises.  [message_id] is
    [update.message.message_id]. *)
Variable telegram : list Sent → Reply → option Py.str.
Variable message_id : Z.

Definition try_reply (r : Reply) (log : list Sent) : list Sent * option Py.str :=
  match telegram log r with
  | None => (log ++ [(r, true)], None)
  | Some e => (log ++ [(r, false)], Some e)
  end.

(** [update.message.message_id if i == 0 else None] *)
Definition reply_to (i : nat) : option Z :=
  if i =? 0 then Some message_id else None.

Definition failure_notice : Py.str :=
  [10060%N] ++ «" Failed to send response. Please try again."».

(** The body of the loop for message [i] (lines 508-545): as formatted,
    then without parse mode, then also without keyboard, then the notice.
    The exception returned is the one that leaves the loop.  The pause of
    line 527 makes no call and is left out. *)
Definition send_message (i : nat) (m : FormattedMessage) (log : list Sent)
  : list Sent * option Py.str :=
  let formatted :=
    {| r_text := text m; r_parse_mode := Passed (parse_mode m);
       r_reply_markup := Passed (reply_markup m);
       r_reply_to_message_id := reply_to i |} in
  let plain :=
    {| r_text := text m; r_parse_mode := Passed None;
       r_reply_markup := Passed (reply_markup m);
       r_reply_to_message_id := reply_to i |} in
  let bare :=
    {| r_text := text m; r_parse_mode := Passed None;
       r_reply_markup := Omitted;
       r_reply_to_message_id := reply_to i |} in
  let notice :=
    {| r_text := failure_notice; r_parse_mode := Omitted;
       r_reply_markup := Omitted;
       r_reply_to_message_id := reply_to i |} in
  match try_reply formatted log with
  | (log, None) => (log, None)
  | (log, Some _) =>
      match try_reply plain log with
      | (log, None) => (log, None)
      | (log, Some _) =>
          match try_reply bare log with
          | (log, None) => (log, None)
          | (log, Some _) => try_reply notice log
          end
      end
  end.

(** [for i, message in enumerate(formatted_messages)] from index [i]. *)
Fixpoint send_messages (i : nat) (ms : list FormattedMessage)
    (log : list Sent) : list Sent * option Py.str :=
  match ms with
  | [] => (log, None)
  | m :: rest =>
      match send_message i m log with
      | (log, None) => send_messages (S i) rest log
      | (log, Some e) => (log, Some e)
      end
  end.

(** Lines 506-545, and the outer [except] of lines 605-613 when the loop
    is left by an exception: one Markdown reply that reports it (the
    exception this last call may raise leaves the handler).  No name
    [progress_msg] is bound in [handle_text_message], so line 608 raises
    [NameError], which the bare [except] swallows: no call is made there. *)
Definition send_responses (should_send : bool) (ms : list FormattedMessage)
  : list Sent * option Py.str :=
  if should_send then
    match send_messages 0 ms [] with
    | (log, None) => (log, None)
    | (log, Some e) =>
        try_reply
          {| r_text := [10060%N] ++ «" **Error processing message**"»
                       ++ [10%N; 10%N] ++ e;
             r_parse_mode := Passed (Some "Markdown"%string);
             r_reply_markup := Omitted;
             r_reply_to_message_id := None |}
          log
    end
  else ([], None).

End WithTelegram.

(** The call that sends message [i] as it was formatted. *)
Definition as_formatted (message_id : Z) (i : nat) (m : FormattedMessage)
  : Reply :=
  {| r_text := text m; r_parse_mode := Passed (parse_mode m);
     r_reply_markup := Passed (reply_markup m);
     r_reply_to_message_id := reply_to message_id i |}.

(** Telegram takes every call. *)
Definition takes_all (telegram : list Sent → Reply → option Py.str) : Prop :=
  ∀ log r, telegram log r = None.

(** Telegram takes every call made without parse mode. *)
Definition takes_plain (telegram : list Sent → Reply → option Py.str) : Prop :=
  ∀ log r, r_parse_mode r = Passed None → telegram log r = None.

(** Message [m] went out with its keyboard, formatted or plain. *)
Definition delivered (log : list Sent) (m : FormattedMessage) : Prop :=
  ∃ r, (r, true) ∈ log ∧ r_text r = text m
       ∧ r_reply_markup r = Passed (reply_markup m)
       ∧ (r_parse_mode r = Passed (parse_mode m)
          ∨ r_parse_mode r = Passed None).

End Responses.

(** * Properties *)

Import Agent Bot.

(** ** The block tracker *)

Section BlockTracker.

Implicit Types (l : Loop) (block : ContentBlock).

Lemma process_blocks_app l xs ys :
  process_blocks l (xs ++ ys) = process_blocks (process_blocks l xs) ys.
Proof. apply foldl_app. Qed.

Lemma process_block_skip l block :
  current_block_index l < total_blocks_seen (state l) →
  process_block l block =
    {| state := state l; current_block_index := current_block_index l + 1;
       yielded := yielded l |}.
Proof.
  intros H. unfold process_block.
  destruct (Nat.ltb_spec (current_block_index l) (total_blocks_seen (state l)));
    [done | lia].
Qed.

Lemma process_blocks_skip replay : ∀ l,
  current_block_index l + length replay ≤ total_blocks_seen (state l) →
  process_blocks l replay =
    {| state := state l;
       current_block_index := current_block_index l + length replay;
       yielded := yielded l |}.
Proof.
  induction replay as [|b replay IH]; intros l H; simpl in *.
  - destruct l; simpl. f_equal. lia.
  - unfold process_blocks in *. simpl. rewrite process_block_skip by lia.
    rewrite IH; simpl; [f_equal; lia | lia].
Qed.

Lemma process_text_block l text :
  total_blocks_seen (state l) ≤ current_block_index l →
  process_block l (TextBlock text) =
    match drop (length (current_text_content (state l))) text with
    | [] => {| state := state l;
               current_block_index := current_block_index l + 1;
               yielded := yielded l |}
    | delta =>
        {| state := {| total_blocks_seen := total_blocks_seen (state l);
                       current_text_content := text |};
           current_block_index := current_block_index l + 1;
           yielded := yielded l ++ [text_update delta] |}
    end.
Proof.
  intros H. unfold process_block.
  destruct (Nat.ltb_spec (current_block_index l) (total_blocks_seen (state l)));
    [lia|].
  by destruct (drop _ text).
Qed.

Lemma last_after_first {A} (x d : A) (xs : list A) :
  default d (last (x :: xs)) = default x (last xs).
Proof.
  destruct xs as [|y ys _] using rev_ind; [done|].
  by rewrite last_cons, !last_snoc.
Qed.

Lemma text_blocks_rebuild texts : ∀ l,
  total_blocks_seen (state l) ≤ current_block_index l →
  growing (current_text_content (state l)) texts →
  ∃ new,
    yielded (process_blocks l (TextBlock <$> texts)) = yielded l ++ new
    ∧ current_text_content (state l) ++ concat (text_deltas new)
      = default (current_text_content (state l)) (last texts).
Proof.
  induction texts as [|text rest IH]; intros l Hidx Hgrow.
  - exists []. simpl. by rewrite !app_nil_r.
  - destruct Hgrow as [[delta ->] Hrest].
    unfold process_blocks in *. cbn [fmap list_fmap foldl].
    rewrite process_text_block by done.
    rewrite drop_app_length, last_after_first.
    destruct delta as [|d delta].
    + rewrite app_nil_r in *.
      destruct (IH {| state := state l;
                      current_block_index := current_block_index l + 1;
                      yielded := yielded l |})
        as (new & Hy & Hc); simpl; [lia | done |].
      by exists new.
    + destruct (IH {| state :=
                        {| total_blocks_seen := total_blocks_seen (state l);
                           current_text_content :=
                             current_text_content (state l) ++ d :: delta |};
                      current_block_index := current_block_index l + 1;
                      yielded := yielded l ++ [text_update (d :: delta)] |})
        as (new & Hy & Hc); simpl in *; [lia | done |].
      exists (text_update (d :: delta) :: new). split.
      * rewrite Hy. by rewrite <- app_assoc.
      * rewrite <- Hc. simpl. by rewrite <- app_assoc.
Qed.

Lemma process_block_seen_mono l block :
  total_blocks_seen (state l) ≤ total_blocks_seen (state (process_block l block)).
Proof.
  unfold process_block.
  destruct (Nat.ltb_spec (current_block_index l) (total_blocks_seen (state l)));
    simpl; [done|].
  destruct block; simpl; try done; [|lia].
  by destruct (drop _ text).
Qed.

Lemma process_block_caught_up l block :
  total_blocks_seen (state l) ≤ current_block_index l →
  total_blocks_seen (state (process_block l block))
  ≤ current_block_index (process_block l block).
Proof.
  intros H. unfold process_block.
  destruct (Nat.ltb_spec (current_block_index l) (total_blocks_seen (state l)));
    simpl; [lia|].
  destruct block; simpl; try lia.
  destruct (drop _ text); simpl; lia.
Qed.

Lemma process_blocks_caught_up content : ∀ l,
  total_blocks_seen (state l) ≤ current_block_index l →
  total_blocks_seen (state l)
  ≤ total_blocks_seen (state (process_blocks l content))
  ∧ total_blocks_seen (state (process_blocks l content))
    ≤ current_block_index (process_blocks l content).
Proof.
  induction content as [|b content IH]; intros l H; [done|].
  unfold process_blocks in *. simpl.
  destruct (IH (process_block l b)) as [H1 H2].
  { by apply process_block_caught_up. }
  split; [|done]. etrans; [apply (process_block_seen_mono l b)|done].
Qed.


End BlockTracker.

(** C1 (as amended).  When the text blocks of a turn are processed at or
    past the stored [total_blocks_seen] and each block's text extends the
    one before, the first extending the stored [current_text_content], the
    stored text followed by the emitted deltas is exactly the text of the
    last block; with an empty stored text the deltas alone concatenate to
    it.  Each block yields the suffix of its text past the length of the
    stored text, when that suffix is not empty. *)
Theorem C1_deltas_rebuild_text (l : Loop) (messages : list (list Py.str)) :
  total_blocks_seen (state l) ≤ current_block_index l →
  growing (current_text_content (state l)) (concat messages) →
  ∃ new,
    yielded (receive_loop l
               ((λ texts, Recv (AssistantMessage (TextBlock <$> texts)))
                  <$> messages))
    = yielded l ++ new
    ∧ current_text_content (state l) ++ concat (text_deltas new)
      = default (current_text_content (state l)) (last (concat messages))
    ∧ (current_text_content (state l) = [] →
       concat (text_deltas new) = default [] (last (concat messages)))
    ∧ ∀ text,
        yielded (process_block l (TextBlock text))
        = yielded l ++
          match drop (length (current_text_content (state l))) text with
          | [] => []
          | delta => [text_update delta]
          end.
Proof.
  intros Hidx Hgrow.
  destruct (text_blocks_rebuild (concat messages) l Hidx Hgrow)
    as (new & Hy & Hc).
  exists new. repeat split.
  - rewrite <- Hy. f_equal. clear.
    revert l. induction messages as [|m ms IH]; intros l; simpl; [done|].
    rewrite IH, fmap_app. symmetry. apply process_blocks_app.
  - done.
  - intros E. by rewrite E in Hc.
  - intros text. rewrite process_text_block by done.
    destruct (drop _ text); simpl; [by rewrite app_nil_r | done].
Qed.

Lemma C1_deltas_rebuild_text_witness :
  let l := {| state := fresh; current_block_index := 0; yielded := [] |} in
  total_blocks_seen (state l) ≤ current_block_index l
  ∧ growing (current_text_content (state l)) (concat [[«"Hel"»]; [«"Hello"»]])
  ∧ ∃ new,
      yielded (receive_loop l
                 ((λ texts, Recv (AssistantMessage (TextBlock <$> texts)))
                    <$> [[«"Hel"»]; [«"Hello"»]]))
      = yielded l ++ new
      ∧ concat (text_deltas new) = «"Hello"».
Proof.
  assert (Hg : growing [] (concat [[«"Hel"»]; [«"Hello"»]])).
  { simpl. split; [apply prefix_nil|]. split; [by exists «"lo"»|done]. }
  split; [simpl; lia|]. split; [exact Hg|].
  destruct (C1_deltas_rebuild_text
              {| state := fresh; current_block_index := 0; yielded := [] |}
              [[«"Hel"»]; [«"Hello"»]] (Nat.le_refl 0) Hg)
    as (new & Hy & _ & Hc & _).
  exists new. split; [exact Hy|]. exact (Hc eq_refl).
Defined.

(** C1 as stated fails on a resumed session: turn 1 streams "Hel" and
    completes; turn 2 delivers the growing blocks "Hel", "Hello" and emits
    only "lo", not "Hello". *)
Lemma C1_counterexample :
  let after1 := (stream_message ∅ Scenario.session None Scenario.text_turn_1).2 in
  let updates2 :=
    (stream_message after1 Scenario.session None Scenario.text_turn_2).1 in
  growing [] [«"Hel"»; «"Hello"»]
  ∧ after1 !! Scenario.session
    = Some {| total_blocks_seen := 1; current_text_content := «"Hel"» |}
  ∧ concat (text_deltas updates2) = «"lo"»
  ∧ concat (text_deltas updates2) ≠ «"Hello"».
Proof.
  split; [|split; [|split]].
  - simpl. split; [apply prefix_nil|]. split; [|done]. by exists «"lo"».
  - vm_compute. reflexivity.
  - vm_compute. reflexivity.
  - vm_compute. discriminate.
Qed.




(** ** The event log and the tool correlator *)

Section EventLog.

Implicit Types (evs : list Event) (tool_id : option Py.str).



Lemma merge_text_after_text evs c content :
  merge_text content (evs ++ [TextEvent c]) = evs ++ [TextEvent (c ++ content)].
Proof.
  unfold merge_text. rewrite last_snoc, length_app. simpl.
  replace (pred (length evs + 1)) with (length evs + 0) by lia.
  by rewrite insert_app_r.
Qed.

Lemma merge_text_after_tool evs name input id status content :
  merge_text content (evs ++ [ToolEvent name input id status])
  = evs ++ [ToolEvent name input id status; TextEvent content].
Proof. unfold merge_text. rewrite last_snoc. by rewrite <- app_assoc. Qed.

End EventLog.

(** ** The stream handler *)

Section Handler.

Variable py_str : Py.val → Py.str.
Variable transport : list Call → Call → Outcome.

Implicit Types (s : StreamState) (u : StreamUpdate) (t : Q).

Lemma update_chunk_frame i chunk s :
  same_log s (update_chunk transport i chunk s).1.
Proof.
  unfold update_chunk, same_log.
  repeat (case_match; simpl; try done).
Qed.

Lemma update_chunks_frame chunks : ∀ i s,
  same_log s (update_chunks transport i chunks s).1.
Proof.
  induction chunks as [|chunk rest IH]; intros i s; simpl; [done|].
  pose proof (update_chunk_frame i chunk s) as (He & Hr & Ht).
  destruct (update_chunk transport i chunk s) as [s' [e|]]; simpl in *; [done|].
  destruct (IH (S i) s') as (He' & Hr' & Ht'). unfold same_log.
  by rewrite He', Hr', Ht'.
Qed.

Lemma update_stream_message_frame s :
  let s' := (update_stream_message py_str transport s).1 in
  events s' = events s ∧ renders s' = S (renders s)
  ∧ last_update_time s' = last_update_time s.
Proof.
  unfold update_stream_message.
  destruct (events s) as [|e evs] eqn:E; simpl; rewrite ?E; [done|].
  destruct (combined_text py_str (e :: evs)) as [text|]; simpl; [|by rewrite E].
  destruct (Py.strip text); simpl; [by rewrite E|].
  destruct (update_chunks_frame (split_chunks text) 0 (record_render s))
    as (He & Hr & Ht).
  by rewrite He, Hr, Ht.
Qed.

Lemma on_exception_frame e s : same_log s (on_exception transport e s).
Proof.
  unfold on_exception, same_log. repeat (case_match; simpl; try done).
Qed.

(** An update for which the handler rewrites the log with [f] and calls
    [_update_stream_message] is rendered at once. *)
Lemma rendered_at_once f t u s :
  handle_update py_str transport t u s
  = update_stream_message py_str transport (set_events (f (events s)) s) →
  events (stream_handler py_str transport t u s) = f (events s)
  ∧ renders (stream_handler py_str transport t u s) = S (renders s)
  ∧ last_update_time (stream_handler py_str transport t u s)
    = last_update_time s.
Proof.
  intros H. unfold stream_handler. rewrite H.
  pose proof (update_stream_message_frame (set_events (f (events s)) s))
    as (He & Hr & Hl).
  destruct (update_stream_message _ _ _) as [s' [e|]]; simpl in *.
  - destruct (on_exception_frame e s') as (He' & Hr' & Hl').
    by rewrite He', Hr', Hl'.
  - done.
Qed.

Lemma tool_calls_rendered t u s tcs :
  u_type u = "assistant"%string → u_tool_calls u = Some tcs → tcs ≠ [] →
  events (stream_handler py_str transport t u s)
  = events s ++ (tool_event <$> tcs)
  ∧ renders (stream_handler py_str transport t u s) = S (renders s)
  ∧ last_update_time (stream_handler py_str transport t u s)
    = last_update_time s.
Proof.
  intros Ht Hc Hne.
  apply (rendered_at_once (λ evs, evs ++ (tool_event <$> tcs))).
  unfold handle_update. rewrite Ht, Hc. by destruct tcs.
Qed.

Lemma tool_results_rendered t u s results :
  u_type u = "tool_result"%string → u_tool_calls u = Some results →
  results ≠ [] →
  events (stream_handler py_str transport t u s)
  = mark_results results (events s)
  ∧ renders (stream_handler py_str transport t u s) = S (renders s)
  ∧ last_update_time (stream_handler py_str transport t u s)
    = last_update_time s.
Proof.
  intros Ht Hc Hne. apply (rendered_at_once (mark_results results)).
  unfold handle_update. rewrite Ht, Hc. by destruct results.
Qed.


Lemma error_ignored t u s :
  u_type u = "error"%string → stream_handler py_str transport t u s = s.
Proof.
  intros Ht. unfold stream_handler, handle_update. by rewrite Ht.
Qed.

(** With the key [last_update_time] missing, a text update is merged into
    the log and the throttle test raises [KeyError]: nothing is rendered. *)
Lemma text_not_rendered t u s content :
  u_type u = "assistant"%string → nonempty (u_tool_calls u) = false →
  u_content u = Some content → content ≠ [] →
  last_update_time s = None →
  stream_handler py_str transport t u s
  = set_events (merge_text content (events s)) s.
Proof.
  intros Ht Hc Hu Hne Hl. unfold stream_handler, handle_update.
  rewrite Ht, Hc, Hu. simpl. destruct content; [done|]. simpl.
  by rewrite Hl.
Qed.

(** Nothing ever stores the key: line 254 is only reached past the read
    of line 252. *)
Lemma last_update_time_stays_unset t u s :
  last_update_time s = None →
  last_update_time (stream_handler py_str transport t u s) = None.
Proof.
  intros Hl. unfold stream_handler, handle_update.
  repeat case_match; simplify_eq; simpl in *; try done;
    repeat match goal with
    | H : update_stream_message _ _ ?x = (?y, _) |- _ =>
        let F := fresh in
        pose proof (update_stream_message_frame x) as F;
        rewrite H in F; simpl in F; destruct F as (_ & _ & F); clear H
    | |- context [on_exception _ ?e ?x] =>
        let F := fresh in
        destruct (on_exception_frame e x) as (_ & _ & F); rewrite F; clear F
    end; try congruence.
Qed.



End Handler.

(** ** Chunking *)

Section Chunking.

Lemma div_up_0 b : 0 < b → div_up 0 b = 0.
Proof. intros H. unfold div_up. apply Nat.div_small. lia. Qed.

Lemma div_up_step a b : 0 < b → 0 < a → div_up a b = S (div_up (a - b) b).
Proof.
  intros Hb Ha. unfold div_up.
  destruct (Nat.le_gt_cases b a) as [Hle|Hlt].
  - replace (a + (b - 1)) with ((a - b + (b - 1)) + 1 * b) by lia.
    rewrite Nat.div_add by lia. lia.
  - replace (a - b) with 0 by lia. rewrite (Nat.div_small (0 + (b - 1))) by lia.
    replace (a + (b - 1)) with ((a - 1) + 1 * b) by lia.
    rewrite Nat.div_add by lia. by rewrite Nat.div_small by lia.
Qed.

Lemma div_up_least a b :
  0 < b → a ≤ div_up a b * b ∧ ∀ m, a ≤ m * b → div_up a b ≤ m.
Proof.
  intros Hb. unfold div_up. split.
  - pose proof (Nat.div_mod (a + (b - 1)) b ltac:(lia)) as H.
    pose proof (Nat.mod_upper_bound (a + (b - 1)) b ltac:(lia)). nia.
  - intros m Hm. apply Nat.lt_succ_r.
    apply Nat.Div0.div_lt_upper_bound. nia.
Qed.

(** The fuel given by [range] is enough: the list ends because the bound
    is reached. *)
Lemma range_from_counts step : 0 < step → ∀ fuel start stop,
  stop - start ≤ fuel →
  range_from fuel start stop step
  = (λ k, start + k * step) <$> seq 0 (div_up (stop - start) step).
Proof.
  intros Hstep. induction fuel as [|fuel IH]; intros start stop Hfuel.
  - replace (stop - start) with 0 by lia. by rewrite div_up_0.
  - simpl. destruct (Nat.ltb_spec start stop) as [Hlt|Hge].
    + rewrite (div_up_step (stop - start)) by lia.
      rewrite IH by lia. cbn [seq fmap list_fmap]. f_equal; [lia|].
      replace (stop - start - step) with (stop - (start + step)) by lia.
      rewrite <- seq_shift, <- list_fmap_compose.
      apply list_fmap_ext. intros _ k _. simpl. lia.
    + replace (stop - start) with 0 by lia. by rewrite div_up_0.
Qed.

Lemma windows_concat {A} (s : list A) n m :
  concat ((λ k, take n (drop (k * n) s)) <$> seq 0 m) = take (m * n) s.
Proof.
  induction m as [|m IH]; [done|].
  rewrite seq_S, fmap_app, concat_app, IH. simpl. rewrite app_nil_r.
  rewrite take_take_drop. f_equal. lia.
Qed.

Lemma split_chunks_windows text :
  split_chunks text
  = (λ k, take CHUNK_SIZE (drop (k * CHUNK_SIZE) text))
      <$> seq 0 (div_up (length text) CHUNK_SIZE).
Proof.
  unfold split_chunks, range.
  assert (Hpos : 0 < CHUNK_SIZE) by (unfold CHUNK_SIZE; lia).
  rewrite range_from_counts by lia.
  rewrite Nat.sub_0_r, <- list_fmap_compose.
  apply list_fmap_ext. intros _ k _. simpl. unfold Py.slice.
  f_equal. lia.
Qed.

End Chunking.

(** C5.  The combined text of length L is split into ceil(L / 4000)
    chunks; chunk i is the slice from i*4000 to (i+1)*4000; no chunk is
    longer than 4000 characters, and 4000 is below 4096; the chunks
    concatenated in order give back the text. *)
Theorem C5_chunks (text : Py.str) :
  let chunks := split_chunks text in
  length chunks = (length text + (CHUNK_SIZE - 1)) / CHUNK_SIZE
  ∧ length text ≤ length chunks * CHUNK_SIZE
  ∧ (∀ m, length text ≤ m * CHUNK_SIZE → length chunks ≤ m)
  ∧ (∀ i, i < length chunks →
       chunks !! i
       = Some (Py.slice text (i * CHUNK_SIZE) ((i + 1) * CHUNK_SIZE)))
  ∧ Forall (λ chunk, length chunk ≤ CHUNK_SIZE) chunks
  ∧ concat chunks = text
  ∧ CHUNK_SIZE = 4000 ∧ CHUNK_SIZE < 4096.
Proof.
  assert (Hpos : 0 < CHUNK_SIZE) by (unfold CHUNK_SIZE; lia).
  destruct (div_up_least (length text) CHUNK_SIZE Hpos) as [Hcover Hleast].
  assert (Hlen : length (split_chunks text) = div_up (length text) CHUNK_SIZE).
  { by rewrite split_chunks_windows, length_fmap, length_seq. }
  cbv zeta. rewrite Hlen. repeat split.
  - done.
  - done.
  - intros i Hi. rewrite split_chunks_windows, list_lookup_fmap.
    rewrite lookup_seq_lt by done. simpl. unfold Py.slice. do 2 f_equal. lia.
  - rewrite split_chunks_windows. apply Forall_fmap, Forall_forall.
    intros k _. simpl. rewrite length_take. lia.
  - rewrite split_chunks_windows, windows_concat. by apply take_ge.
  - unfold CHUNK_SIZE. lia.
Qed.

(** ** The claims about the event log, the throttle and the renderer *)




(** C4: the code at the failing input.  From the state the handler starts
    in, two text updates 0.1 s apart, the second longer than 50 characters,
    are merged into the log but rendered not once, whatever the
    environment; and in that state no text update is ever rendered. *)
Theorem C4_text_updates_not_rendered
    (py_str : Py.val → Py.str) (transport : list Call → Call → Outcome) :
  let s := stream_updates py_str transport Scenario.two_texts initial in
  events s = [TextEvent («"Hel"» ++ Scenario.sixty)]
  ∧ renders s = 0 ∧ calls s = [] ∧ messages s = []
  ∧ last_update_time s = None
  ∧ ∀ deliveries t content,
      let s' := stream_updates py_str transport deliveries initial in
      renders (stream_handler py_str transport t (text_update content) s')
      = renders s'.
Proof.
  split; [vm_compute; reflexivity|]. split; [vm_compute; reflexivity|].
  split; [vm_compute; reflexivity|]. split; [vm_compute; reflexivity|].
  split; [vm_compute; reflexivity|].
  intros deliveries t content s'.
  assert (Hl : last_update_time s' = None).
  { subst s'. generalize initial (eq_refl : last_update_time initial = None).
    induction deliveries as [|[t' u'] rest IH]; intros s0 H0; [done|].
    simpl. apply IH. by apply last_update_time_stays_unset. }
  destruct content as [|c content].
  - unfold stream_handler, handle_update. by simpl.
  - by rewrite (text_not_rendered py_str transport t _ s' (c :: content)).
Qed.

Section RenderPass.

Variable transport : list Call → Call → Outcome.

Implicit Types (s : StreamState) (chunk : Py.str).

(** The sent messages and their recorded contents grow in step, and a
    chunk at index [i] touches no index past [i]. *)
Lemma update_chunk_beyond i chunk s j :
  length (message_contents s) ≤ length (messages s) → i < j →
  let s' := (update_chunk transport i chunk s).1 in
  length (message_contents s') ≤ length (messages s')
  ∧ messages s' !! j = messages s !! j
  ∧ message_contents s' !! j = message_contents s !! j.
Proof.
  intros Hlen Hij. unfold update_chunk.
  destruct (Nat.ltb_spec i (length (messages s))) as [Hi|Hi].
  - destruct (_ && _); [done|].
    destruct (messages s !! i) as [m|]; [|done].
    destruct (transport _ _); simpl; [|done].
    destruct (Nat.ltb_spec i (length (message_contents s))) as [Hc|Hc].
    + rewrite length_insert. split; [done|]. split; [done|].
      apply list_lookup_insert_ne. lia.
    + rewrite length_app. simpl. split; [lia|]. split; [done|].
      rewrite lookup_app_r by lia. rewrite !lookup_ge_None_2; simpl; [done|lia..].
  - destruct (transport _ _); simpl; [|done].
    rewrite !length_app. simpl. split; [lia|].
    rewrite !lookup_app_r by lia.
    rewrite !(lookup_ge_None_2 _ j) by lia.
    split; apply lookup_ge_None_2; simpl; lia.
Qed.

Lemma update_chunks_beyond chunks : ∀ i s j,
  length (message_contents s) ≤ length (messages s) →
  i + length chunks ≤ j →
  let s' := (update_chunks transport i chunks s).1 in
  messages s' !! j = messages s !! j
  ∧ message_contents s' !! j = message_contents s !! j.
Proof.
  induction chunks as [|chunk rest IH]; intros i s j Hlen Hj; [done|].
  simpl in *.
  destruct (update_chunk_beyond i chunk s j Hlen ltac:(lia)) as (Hl & Hm & Hc).
  destruct (update_chunk transport i chunk s) as [s1 [e|]]; simpl in *; [done|].
  destruct (IH (S i) s1 j Hl ltac:(lia)) as [Hm' Hc'].
  by rewrite Hm', Hc'.
Qed.

Lemma update_chunk_edit i chunk s m :
  length (messages s) = length (message_contents s) →
  messages s !! i = Some m → message_contents s !! i ≠ Some chunk →
  update_chunk transport i chunk s
  = match transport (calls s) (EditText m chunk (Some "Markdown"%string)) with
    | Returns _ =>
        (set_sent (messages s) (<[i := chunk]> (message_contents s))
           (record_call (EditText m chunk (Some "Markdown"%string)) s), None)
    | Raises _ =>
        (record_call (EditText m chunk (Some "Markdown"%string)) s, None)
    end.
Proof.
  intros Hlen Hm Hc. unfold update_chunk.
  pose proof (lookup_lt_Some _ _ _ Hm) as Hi.
  destruct (Nat.ltb_spec i (length (messages s))); [|lia].
  rewrite bool_decide_eq_false_2 by done. rewrite andb_false_r, Hm.
  by destruct (Nat.ltb_spec i (length (message_contents s))); [|lia].
Qed.

Lemma update_chunk_edit_calls i chunk s m :
  length (messages s) = length (message_contents s) →
  messages s !! i = Some m → message_contents s !! i ≠ Some chunk →
  calls (update_chunk transport i chunk s).1
  = calls s ++ [EditText m chunk (Some "Markdown"%string)].
Proof.
  intros Hlen Hm Hc. rewrite (update_chunk_edit i chunk s m) by done.
  by destruct (transport _ _).
Qed.

End RenderPass.

Section SentLists.

Variable py_str : Py.val → Py.str.
Variable transport : list Call → Call → Outcome.

Implicit Types (s : StreamState).

Lemma update_chunk_aligned i chunk s :
  aligned s → aligned (update_chunk transport i chunk s).1.
Proof.
  unfold aligned, update_chunk. intros H.
  destruct (Nat.ltb_spec i (length (messages s))) as [Hi|Hi].
  - destruct (_ && _); [done|].
    destruct (messages s !! i); [|done].
    destruct (transport _ _); simpl; [|done].
    destruct (Nat.ltb_spec i (length (message_contents s))); [|lia].
    by rewrite length_insert.
  - destruct (transport _ _); simpl; [|done].
    rewrite !length_app. simpl. lia.
Qed.

Lemma update_chunks_aligned chunks : ∀ i s,
  aligned s → aligned (update_chunks transport i chunks s).1.
Proof.
  induction chunks as [|chunk rest IH]; intros i s H; [done|]. simpl.
  pose proof (update_chunk_aligned i chunk s H) as H1.
  destruct (update_chunk transport i chunk s) as [s1 [e|]]; [done|].
  by apply IH.
Qed.

Lemma update_stream_message_aligned s :
  aligned s → aligned (update_stream_message py_str transport s).1.
Proof.
  intros H. unfold update_stream_message.
  destruct (events (record_render s)); [done|].
  destruct (combined_text _ _) as [text|]; [|done].
  destruct (Py.strip text); [done|].
  by apply update_chunks_aligned.
Qed.

Lemma on_exception_aligned e s :
  aligned s → aligned (on_exception transport e s).
Proof.
  unfold on_exception, aligned. repeat (case_match; simpl; try done).
Qed.

Lemma stream_handler_aligned t u s :
  aligned s → aligned (stream_handler py_str transport t u s).
Proof.
  intros H. unfold stream_handler, handle_update.
  repeat case_match; simplify_eq;
    repeat match goal with
    | E : update_stream_message _ _ ?x = (_, _) |- _ =>
        let F := fresh in
        assert (F := update_stream_message_aligned x);
        rewrite E in F; simpl in F; clear E
    end;
    try apply on_exception_aligned; auto.
Qed.

(** X1.  In every state the handler can reach, the lists of sent messages
    and of their recorded contents have the same length. *)
Theorem reachable_aligned deliveries :
  aligned (stream_updates py_str transport deliveries initial).
Proof.
  unfold stream_updates.
  generalize initial (eq_refl : aligned initial).
  induction deliveries as [|[t u] rest IH]; intros s H; [done|].
  simpl. apply IH. by apply stream_handler_aligned.
Qed.

End SentLists.

(** C6 (as amended).  For a chunk at index i: when its content equals the
    content recorded for message i no call is made; when message i exists
    and the content differs, [edit_text] is called, a successful edit
    records the new content, and a failed edit changes nothing but the
    call log, so that a later pass whose chunk still differs calls
    [edit_text] on it again; when no message exists at index i,
    [reply_text] is called once and the handle and the content are
    recorded; messages and contents at indices at or past the number of
    chunks are left as they were. *)
Theorem C6_chunk_update
    (transport : list Call → Call → Outcome)
    (i : nat) (chunk : Py.str) (s : StreamState) :
  length (messages s) = length (message_contents s) →
  (∀ m, messages s !! i = Some m → message_contents s !! i = Some chunk →
     update_chunk transport i chunk s = (s, None))
  ∧ (∀ m, messages s !! i = Some m → message_contents s !! i ≠ Some chunk →
       let c := EditText m chunk (Some "Markdown"%string) in
       update_chunk transport i chunk s
       = match transport (calls s) c with
         | Returns _ =>
             (set_sent (messages s) (<[i := chunk]> (message_contents s))
                (record_call c s), None)
         | Raises _ => (record_call c s, None)
         end)
  ∧ (∀ m e, messages s !! i = Some m → message_contents s !! i ≠ Some chunk →
       let c := EditText m chunk (Some "Markdown"%string) in
       transport (calls s) c = Raises e →
       calls (update_chunk transport i chunk
                (update_chunk transport i chunk s).1).1
       = calls s ++ [c; c])
  ∧ (messages s !! i = None →
       let c := ReplyText chunk (Some "Markdown"%string) in
       update_chunk transport i chunk s
       = match transport (calls s) c with
         | Returns m =>
             (set_sent (messages s ++ [m]) (message_contents s ++ [chunk])
                (record_call c s), None)
         | Raises e => (record_call c s, Some (TelegramError e))
         end)
  ∧ (∀ chunks j, length chunks ≤ j →
       let s' := (update_chunks transport 0 chunks s).1 in
       messages s' !! j = messages s !! j
       ∧ message_contents s' !! j = message_contents s !! j).
Proof.
  intros Hlen.
  split; [|split; [|split; [|split]]].
  - intros m Hm Hc. unfold update_chunk.
    pose proof (lookup_lt_Some _ _ _ Hm) as Hi.
    destruct (Nat.ltb_spec i (length (messages s))); [|lia].
    destruct (Nat.ltb_spec i (length (message_contents s))); [|lia].
    by rewrite bool_decide_eq_true_2.
  - intros m Hm Hc. by apply update_chunk_edit.
  - intros m e Hm Hc c Hr. subst c.
    rewrite (update_chunk_edit transport i chunk s m), Hr by done. simpl.
    rewrite (update_chunk_edit_calls transport i chunk _ m) by done.
    simpl. by rewrite <- app_assoc.
  - intros Hnone c. unfold update_chunk.
    apply lookup_ge_None in Hnone.
    destruct (Nat.ltb_spec i (length (messages s))); [lia|done].
  - intros chunks j Hj.
    apply (update_chunks_beyond transport chunks 0 s j); [lia|done].
Qed.

Lemma C6_chunk_update_witness :
  let s := set_sent [0] [«"a"»] initial in
  length (messages s) = length (message_contents s)
  ∧ update_chunk Scenario.refusing_edits 0 «"b"» s
    = (record_call (EditText 0 «"b"» (Some "Markdown"%string)) s, None).
Proof.
  split; [reflexivity|].
  destruct (C6_chunk_update Scenario.refusing_edits 0 «"b"»
              (set_sent [0] [«"a"»] initial) eq_refl) as (_ & H & _).
  rewrite (H 0); [reflexivity | reflexivity | vm_compute; discriminate].
Defined.

(** C6 as stated fails: the edit of chunk 0 fails in the second render
    pass and is attempted again in the third. *)
Lemma C6_counterexample :
  let x := Some «"X"» in
  let y := Some «"Y"» in
  let s := stream_updates Scenario.str_of_val Scenario.refusing_edits
             Scenario.three_renders initial in
  calls s
  = [ReplyText (tool_line 1 x running []) (Some "Markdown"%string);
     EditText 0 (tool_line 1 x running [] ++ [10%N] ++ tool_line 2 y running [])
       (Some "Markdown"%string);
     EditText 0 (tool_line 1 x done [] ++ [10%N] ++ tool_line 2 y done [])
       (Some "Markdown"%string)]
  ∧ messages s = [0]
  ∧ message_contents s = [tool_line 1 x running []].
Proof. repeat split; vm_compute; reflexivity. Qed.





(** C9.  From the empty log, text "Hel", text "lo", tool call X with id 1
    and the result for id 1 leave two entries, the text "Hello" and the
    tool X with status [done]; the display text is "Hello", a line break
    and the tool's summary line, and it is what the message holds when
    Telegram accepts the calls.  A text update extends a last entry that is
    text and starts a new entry after a tool entry or in an empty log. *)
Theorem C9_hello_then_tool
    (py_str : Py.val → Py.str) (transport : list Call → Call → Outcome)
    (t1 t2 t3 t4 : Q) :
  let s := stream_updates py_str transport (Scenario.hello_x t1 t2 t3 t4)
             initial in
  let summary := tool_line 1 (Some «"X"») done [] in
  events s = [TextEvent «"Hello"»;
              ToolEvent (Some «"X"») ∅ (Some «"1"») done]
  ∧ combined_text py_str (events s) = Fine («"Hello"» ++ [10%N] ++ summary)
  ∧ summary = «"1. "» ++ [10003%N] ++ «" "» ++ [128295%N] ++ «" **X**"»
  ∧ (accepts transport →
     message_contents s = [«"Hello"» ++ [10%N] ++ summary])
  ∧ (∀ evs c content,
       merge_text content (evs ++ [TextEvent c])
       = evs ++ [TextEvent (c ++ content)])
  ∧ (∀ evs name input id status content,
       merge_text content (evs ++ [ToolEvent name input id status])
       = evs ++ [ToolEvent name input id status; TextEvent content])
  ∧ (∀ content, merge_text content [] = [TextEvent content]).
Proof.
  cbv zeta.
  assert (He : events (stream_updates py_str transport
                         (Scenario.hello_x t1 t2 t3 t4) initial)
               = [TextEvent «"Hello"»;
                  ToolEvent (Some «"X"») ∅ (Some «"1"») done]).
  { unfold stream_updates, Scenario.hello_x. cbn [foldl fst snd].
    rewrite (text_not_rendered _ _ t1 _ initial «"Hel"») by done.
    rewrite (text_not_rendered _ _ t2 _ _ «"lo"») by done.
    match goal with
    | |- events (stream_handler _ _ _ ?u (stream_handler _ _ _ ?v ?s0)) = _ =>
        destruct (tool_results_rendered py_str transport t4 u
                    (stream_handler py_str transport t3 v s0)
                    [tool_result_entry «"1"» None]) as (-> & _);
          [done..|];
        destruct (tool_calls_rendered py_str transport t3 v s0
                    (default [] (u_tool_calls v))) as (-> & _); [done..|]
    end.
    vm_compute. reflexivity. }
  rewrite He.
  split; [done|]. split; [vm_compute; reflexivity|].
  split; [vm_compute; reflexivity|].
  split; [|split; [|split]].
  - intros Hok. unfold stream_updates, Scenario.hello_x. cbn [foldl fst snd].
    rewrite (text_not_rendered _ _ t1 _ initial «"Hel"») by done.
    rewrite (text_not_rendered _ _ t2 _ _ «"lo"») by done.
    vm_compute.
    repeat match goal with
    | |- context [transport ?h ?c] =>
        let m := fresh "m" in let Hm := fresh "Hm" in
        destruct (Hok h c) as [m Hm]; rewrite Hm; clear Hm; vm_compute
    end.
    reflexivity.
  - apply merge_text_after_text.
  - apply merge_text_after_tool.
  - done.
Qed.

Lemma C9_hello_then_tool_witness :
  accepts Scenario.accepting
  ∧ message_contents
      (stream_updates Scenario.str_of_val Scenario.accepting
         (Scenario.hello_x 1 2 3 4) initial)
    = [«"Hello"» ++ [10%N] ++ tool_line 1 (Some «"X"») done []].
Proof.
  assert (H : accepts Scenario.accepting) by (intros h c; by eexists).
  split; [exact H|].
  destruct (C9_hello_then_tool Scenario.str_of_val Scenario.accepting 1 2 3 4)
    as (_ & _ & _ & Hc & _).
  exact (Hc H).
Defined.

(** C10.  The handler ignores an update of type [error]: the whole stream
    state, with the event log, the sent messages, their recorded contents,
    the calls made on Telegram and the count of renders, is what it was.
    The error text of a failed turn comes from the response formatted after
    the turn, which is then always sent. *)
Theorem C10_error_update_ignored
    (py_str : Py.val → Py.str) (transport : list Call → Call → Outcome)
    (t : Q) (u : StreamUpdate) (s : StreamState) :
  u_type u = "error"%string →
  let s' := stream_handler py_str transport t u s in
  s' = s
  ∧ events s' = events s ∧ renders s' = renders s
  ∧ messages s' = messages s ∧ message_contents s' = message_contents s
  ∧ calls s' = calls s
  ∧ ∀ format_claude_response message,
      formatted_messages format_claude_response (Failed message)
      = [ [10060%N] ++ «" **Error**"» ++ [10%N; 10%N]
          ++ «"An unexpected error occurred: "» ++ message ]
      ∧ should_send
          (formatted_messages format_claude_response (Failed message)) s'
        = true.
Proof.
  intros Hu. cbv zeta. rewrite (error_ignored py_str transport t u s Hu).
  repeat split.
Qed.

Lemma C10_error_update_ignored_witness :
  let u := error_update «"boom"» in
  let s := stream_updates Scenario.str_of_val Scenario.accepting
             (Scenario.hello_x 1 2 3 4) initial in
  u_type u = "error"%string
  ∧ stream_handler Scenario.str_of_val Scenario.accepting 5 u s = s.
Proof.
  split; [reflexivity|].
  apply (C10_error_update_ignored Scenario.str_of_val Scenario.accepting 5
           (error_update «"boom"») _ eq_refl).
Defined.

(** ** Further properties of the same code *)

(** X2.  From the state the handler starts in, no sequence of updates ever
    stores the key [last_update_time]. *)
Theorem throttle_key_never_stored
    (py_str : Py.val → Py.str) (transport : list Call → Call → Outcome)
    (deliveries : list (Q * StreamUpdate)) :
  last_update_time (stream_updates py_str transport deliveries initial) = None.
Proof.
  unfold stream_updates.
  generalize initial (eq_refl : last_update_time initial = None).
  induction deliveries as [|[t u] rest IH]; intros s H; [done|].
  simpl. apply IH. by apply last_update_time_stays_unset.
Qed.

(** X3.  When the SDK raises while messages are received, the tracker
    yields one [error] update after what it had yielded, and the session
    state is left as last updated. *)
Theorem stream_error_keeps_state
    (l : Loop) (before after : list Received) (e : Py.str) :
  Forall (λ r, continues r = true) before →
  receive_loop l (before ++ Throw e :: after)
  = yield (error_update e) (receive_loop l before).
Proof.
  revert l. induction before as [|r before IH]; intros l H; [done|].
  apply Forall_cons in H as [Hr H].
  destruct r as [[content|content| |is_error result]|e']; simpl in *;
    try discriminate.
  - by apply IH.
  - destruct (tool_results content); by apply IH.
  - by apply IH.
Qed.

Lemma stream_error_keeps_state_witness :
  let l := {| state := fresh; current_block_index := 0; yielded := [] |} in
  let before := [Recv (AssistantMessage [TextBlock «"Hel"»])] in
  Forall (λ r, continues r = true) before
  ∧ state (receive_loop l (before ++ [Throw «"closed"»]))
    = {| total_blocks_seen := 0; current_text_content := «"Hel"» |}
  ∧ yielded (receive_loop l (before ++ [Throw «"closed"»]))
    = [text_update «"Hel"»; error_update «"closed"»].
Proof.
  assert (H : Forall (λ r, continues r = true)
                [Recv (AssistantMessage [TextBlock «"Hel"»])]).
  { by repeat constructor. }
  split; [exact H|].
  rewrite (stream_error_keeps_state
             {| state := fresh; current_block_index := 0; yielded := [] |}
             [Recv (AssistantMessage [TextBlock «"Hel"»])] [] «"closed"» H).
  split; reflexivity.
Defined.


(** * Further properties *)

Import AgentLaws.

(** ** The block tracker across sessions and turns *)

Section Turns.

Implicit Types (l : Loop) (stream : list Received).

Lemma process_block_yields l block :
  ∃ new, yielded (process_block l block) = yielded l ++ new
         ∧ Forall (λ u, u_type u = "assistant"%string) new.
Proof.
  unfold process_block.
  destruct (_ <? _); [exists []; by rewrite app_nil_r|].
  destruct block as [text|id name input|tid err|th]; simpl;
    try (exists []; by rewrite app_nil_r).
  - destruct (drop _ text) as [|c delta]; simpl;
      [exists []; by rewrite app_nil_r|].
    eexists. split; [done|]. by repeat constructor.
  - eexists. split; [done|]. by repeat constructor.
Qed.

Lemma process_blocks_yields content : ∀ l,
  ∃ new, yielded (process_blocks l content) = yielded l ++ new
         ∧ Forall (λ u, u_type u = "assistant"%string) new.
Proof.
  induction content as [|b content IH]; intros l.
  { exists []. by rewrite app_nil_r. }
  unfold process_blocks in *. simpl.
  destruct (process_block_yields l b) as (n1 & H1 & F1).
  destruct (IH (process_block l b)) as (n2 & H2 & F2).
  exists (n1 ++ n2). rewrite H2, H1, app_assoc. split; [done|].
  by apply Forall_app.
Qed.

End Turns.

Section Leaving.

Import Closing.

Implicit Types (l : Loop) (stream : list Received).

(** The loop of the claims is the loop by itself followed by the [except]
    of line 172. *)
Lemma receive_loop_reports stream : ∀ l,
  receive_loop l stream
  = report (receive_loop_raising l stream).2 (receive_loop_raising l stream).1.
Proof.
  induction stream as [|r stream IH]; intros l; [done|].
  destruct r as [[content|content| |is_error result]|e]; simpl;
    [apply IH | destruct (tool_results content); apply IH | apply IH
    | by destruct is_error | done].
Qed.

Lemma receive_loop_raising_shape stream : ∀ l,
  ∃ body,
    Forall (λ u, surfaced u = true) body
    ∧ (receive_loop_raising l stream).2 = thrown stream
    ∧ yielded (receive_loop_raising l stream).1
      = yielded l ++ body ++ answer stream.
Proof.
  induction stream as [|r stream IH]; intros l.
  { exists []. split; [done|]. split; [done|]. simpl. by rewrite app_nil_r. }
  assert (Hgo : continues r = true →
            thrown (r :: stream) = thrown stream
            ∧ answer (r :: stream) = answer stream).
  { intros E. unfold thrown, answer, stop. simpl. by rewrite E. }
  destruct r as [[content|content| |is_error result]|e]; simpl.
  - destruct (Hgo eq_refl) as [-> ->].
    destruct (process_blocks_yields content l) as (n1 & H1 & F1).
    destruct (IH (process_blocks l content)) as (body & Hb & Hr & Hy).
    exists (n1 ++ body). split; [|split; [done|]].
    + apply Forall_app. split; [|done].
      eapply Forall_impl; [exact F1|]. intros u Hu. unfold surfaced.
      by rewrite Hu.
    + by rewrite Hy, H1, <- !app_assoc.
  - destruct (Hgo eq_refl) as [-> ->].
    destruct (tool_results content) as [|t ts]; [apply IH|].
    destruct (IH (yield (tool_result_update (t :: ts)) l))
      as (body & Hb & Hr & Hy).
    exists (tool_result_update (t :: ts) :: body).
    split; [by constructor|]. split; [done|].
    rewrite Hy. simpl. by rewrite <- !app_assoc.
  - destruct (Hgo eq_refl) as [-> ->]. apply IH.
  - exists []. split; [done|]. split; [done|]. by destruct is_error.
  - exists []. split; [done|]. split; [done|]. simpl. by rewrite app_nil_r.
Qed.

End Leaving.

(** X4.  A call of [stream_message] that gets past connecting and querying
    first yields the progress update, then only updates that surface
    blocks or tool results, and last its terminal updates ([result] or
    [error]): the one that answers a result message, then the [error] of
    the exception that reaches line 172.  The [async with] block lies
    inside the [try], so an exception raised when the client is closed
    reaches it, after a result message too, and in place of an exception
    raised while receiving.  There are never more than two terminal
    updates; with a client that closes without raising there is at most
    one, and the call is the [stream_message] of the claims. *)
Theorem terminal_updates_come_last
    (session_states : gmap Py.str State) (session_id : Py.str)
    (stream : list Received) (close : option Py.str) :
  let client := {| Closing.enter := None; Closing.query := None;
                   Closing.close := close |} in
  ∃ body ending,
    (Closing.stream_message_closing client session_states session_id stream).1
    = progress_update «"Starting Claude Agent..."» 0 :: body ++ ending
    ∧ Forall (λ u, surfaced u = true) body
    ∧ Forall (λ u, terminal u = true) ending
    ∧ ending
      = answer stream
        ++ match Closing.leave close (thrown stream) with
           | Some e => [error_update e]
           | None => []
           end
    ∧ length ending ≤ 2
    ∧ (close = None →
       length ending ≤ 1
       ∧ Closing.stream_message_closing client session_states session_id stream
         = stream_message session_states session_id None stream).
Proof.
  cbv zeta. unfold Closing.stream_message_closing, stream_message.
  cbn [Closing.enter Closing.query Closing.close].
  set (l0 := {| state := default fresh (session_states !! session_id);
                current_block_index := 0;
                yielded := [progress_update «"Starting Claude Agent..."» 0] |}).
  rewrite (receive_loop_reports stream l0).
  destruct (receive_loop_raising_shape stream l0) as (body & Hb & Hr & Hy).
  destruct (Closing.receive_loop_raising l0 stream) as [l raised].
  cbn [fst snd] in *. subst raised. exists body. eexists.
  split; [|split; [exact Hb|split; [|split; [reflexivity|]]]].
  - unfold Closing.report.
    destruct (Closing.leave close (thrown stream)); simpl; rewrite Hy; simpl;
      by rewrite <- ?app_assoc, ?app_nil_r.
  - apply Forall_app. split.
    + unfold answer. destruct (stop stream) as [[[| | |is_error result]|e]|];
        repeat constructor. by destruct is_error.
    + destruct (Closing.leave close (thrown stream)); by repeat constructor.
  - assert (Hone : length (answer stream) ≤ 1
                   ∧ (thrown stream = None ∨ answer stream = [])).
    { unfold answer, thrown.
      destruct (stop stream) as [[[| | |is_error result]|e]|]; simpl;
        split; auto. }
    destruct Hone as [Ha Hx]. rewrite length_app. split.
    + destruct (Closing.leave close (thrown stream)); simpl; lia.
    + intros ->. split; [|done]. simpl.
      destruct Hx as [->| ->]; simpl; [lia|].
      destruct (thrown stream); simpl; lia.
Qed.

(** X5.  A call of [stream_message] leaves the state of every other
    session as it was, and a call that fails to connect yields one [error]
    update and changes no session at all. *)
Theorem other_sessions_untouched
    (session_states : gmap Py.str State) (session_id other : Py.str)
    (connect : option Py.str) (stream : list Received) :
  other ≠ session_id →
  (stream_message session_states session_id connect stream).2 !! other
  = session_states !! other
  ∧ ∀ e, stream_message session_states session_id (Some e) stream
         = ([error_update e], session_states).
Proof.
  intros Hne. split; [|done].
  unfold stream_message. destruct connect; [done|]. simpl.
  by rewrite lookup_insert_ne.
Qed.

Lemma other_sessions_untouched_witness :
  let states := (stream_message ∅ «"a"» None Scenario.tools_turn).2 in
  «"a"» ≠ «"b"»
  ∧ (stream_message states «"b"» None Scenario.short_turn).2 !! «"a"»
    = states !! «"a"».
Proof.
  assert (H : «"a"» ≠ «"b"») by (vm_compute; discriminate).
  split; [exact H|].
  apply (other_sessions_untouched _ «"b"» «"a"» None Scenario.short_turn H).
Defined.

Section Counting.

Implicit Types (l : Loop) (stream : list Received).

Lemma process_block_counts l block :
  total_blocks_seen (state l) ≤ current_block_index l →
  current_block_index (process_block l block)
  = current_block_index l + (if counted block then 1 else 0).
Proof.
  intros H. unfold process_block.
  destruct (Nat.ltb_spec (current_block_index l) (total_blocks_seen (state l)));
    [lia|].
  destruct block; simpl; try lia.
  by destruct (drop _ text).
Qed.

Lemma process_blocks_counts content : ∀ l,
  total_blocks_seen (state l) ≤ current_block_index l →
  current_block_index (process_blocks l content)
  = current_block_index l + length (filter (λ b, counted b = true) content).
Proof.
  induction content as [|b content IH]; intros l H; simpl; [lia|].
  unfold process_blocks in *. simpl.
  rewrite IH by (by apply process_block_caught_up).
  rewrite process_block_counts by done.
  rewrite filter_cons.
  destruct (decide (counted b = true)) as [E|E].
  - rewrite E. simpl. lia.
  - destruct (counted b); [done|]. simpl. lia.
Qed.

Lemma receive_loop_counts before : ∀ l,
  total_blocks_seen (state l) ≤ current_block_index l →
  Forall (λ r, continues r = true) before →
  total_blocks_seen (state (receive_loop l before))
  ≤ current_block_index (receive_loop l before)
  ∧ current_block_index (receive_loop l before)
    = current_block_index l
      + length (filter (λ b, counted b = true) (assistant_blocks before)).
Proof.
  induction before as [|r before IH]; intros l H Hc.
  { simpl. split; [done|]. unfold assistant_blocks. simpl. lia. }
  apply Forall_cons in Hc as [Hr Hc].
  destruct r as [[content|content| |is_error result]|e]; simpl in *;
    try discriminate.
  - destruct (process_blocks_caught_up content l H) as [_ H2].
    destruct (IH (process_blocks l content) H2 Hc) as [IH1 IH2].
    split; [done|]. rewrite IH2, process_blocks_counts by done.
    unfold assistant_blocks. cbn [mbind list_bind].
    change (mbind ?f before) with (assistant_blocks before).
    rewrite filter_app, length_app. lia.
  - destruct (tool_results content).
    + by apply IH.
    + by apply (IH (yield _ l)).
  - by apply IH.
Qed.

(** Skipped: with the cursor and the whole content below the stored count,
    a stream that goes on yields only tool results and changes no state. *)
Lemma receive_loop_replay before : ∀ l,
  Forall (λ r, continues r = true) before →
  current_block_index l + length (assistant_blocks before)
  ≤ total_blocks_seen (state l) →
  state (receive_loop l before) = state l
  ∧ current_block_index (receive_loop l before)
    = current_block_index l + length (assistant_blocks before)
  ∧ ∃ new, yielded (receive_loop l before) = yielded l ++ new
           ∧ Forall (λ u, u_type u = "tool_result"%string) new.
Proof.
  induction before as [|r before IH]; intros l Hc Hlen.
  { simpl. split; [done|]. split; [unfold assistant_blocks; simpl; lia|].
    exists []. by rewrite app_nil_r. }
  apply Forall_cons in Hc as [Hr Hc].
  assert (Hsplit : ∀ r', assistant_blocks (r' :: before)
            = match r' with Recv (AssistantMessage c) => c | _ => [] end
              ++ assistant_blocks before) by done.
  rewrite Hsplit in *. rewrite length_app in Hlen.
  destruct r as [[content|content| |is_error result]|e]; simpl in *;
    try discriminate.
  - rewrite process_blocks_skip by lia.
    destruct (IH {| state := state l;
                    current_block_index := current_block_index l + length content;
                    yielded := yielded l |} Hc) as (Hs & Hi & new & Hy & Hn);
      simpl; [lia|].
    simpl in *. split; [done|]. split; [rewrite Hi, length_app; lia|].
    by exists new.
  - destruct (tool_results content) as [|t ts].
    + by apply IH.
    + destruct (IH (yield (tool_result_update (t :: ts)) l) Hc)
        as (Hs & Hi & new & Hy & Hn); simpl; [lia|].
      simpl in *. split; [done|]. split; [done|].
      exists (tool_result_update (t :: ts) :: new).
      rewrite Hy, <- app_assoc. split; [done|]. by constructor.
  - by apply IH.
Qed.

End Counting.

(** X6.  The first turn of a session that reaches a result message stores
    as [total_blocks_seen] the number of text and tool-use blocks the
    assistant messages held before that result; blocks of other kinds are
    not counted, and nothing after the result is read. *)
Theorem first_turn_counts_blocks
    (session_states : gmap Py.str State) (session_id : Py.str)
    (before after : list Received) (is_error : bool) (result : option Py.str) :
  session_states !! session_id = None →
  Forall (λ r, continues r = true) before →
  total_blocks_seen <$>
    (stream_message session_states session_id None
       (before ++ Recv (ResultMessage is_error result) :: after)).2
    !! session_id
  = Some (length (filter (λ b, counted b = true) (assistant_blocks before))).
Proof.
  intros Hnew Hc. unfold stream_message. rewrite Hnew. simpl.
  rewrite lookup_insert_eq. simpl. f_equal.
  set (l0 := {| state := fresh; current_block_index := 0;
                yielded := [progress_update «"Starting Claude Agent..."» 0] |}).
  assert (Hstop : ∀ l, receive_loop l (before ++ Recv (ResultMessage is_error result) :: after)
            = receive_loop (receive_loop l before) [Recv (ResultMessage is_error result)]).
  { clear - Hc. induction before as [|r before IH]; intros l.
    - simpl. by destruct is_error.
    - apply Forall_cons in Hc as [Hr Hc].
      destruct r as [[content|content| |e r]|e]; simpl in *; try discriminate;
        try by apply IH.
      destruct (tool_results content); by apply IH. }
  rewrite Hstop.
  destruct (receive_loop_counts before l0 (Nat.le_refl 0) Hc) as [_ Hi].
  simpl. destruct is_error; simpl; rewrite Hi; done.
Qed.

Lemma first_turn_counts_blocks_witness :
  let before := [Recv (AssistantMessage [ThinkingBlock «"hm"»;
                                         TextBlock «"Hi"»;
                                         ToolUseBlock «"a"» «"LS"» ∅])] in
  (∅ : gmap Py.str State) !! Scenario.session = None
  ∧ Forall (λ r, continues r = true) before
  ∧ total_blocks_seen <$>
      (stream_message ∅ Scenario.session None
         (before ++ [Recv (ResultMessage false None)])).2 !! Scenario.session
    = Some 2.
Proof.
  assert (Hc : Forall (λ r, continues r = true)
                 [Recv (AssistantMessage [ThinkingBlock «"hm"»;
                                          TextBlock «"Hi"»;
                                          ToolUseBlock «"a"» «"LS"» ∅])])
    by (by repeat constructor).
  split; [reflexivity|]. split; [exact Hc|].
  exact (first_turn_counts_blocks ∅ Scenario.session _ [] false None
           eq_refl Hc).
Defined.


Section Rerun.

Implicit Types (l : Loop) (stream : list Received).

Lemma process_blocks_all_counted content : ∀ l,
  Forall (λ b, counted b = true) content →
  current_block_index (process_blocks l content)
  = current_block_index l + length content.
Proof.
  induction content as [|b content IH]; intros l H; simpl; [lia|].
  apply Forall_cons in H as [Hb H].
  unfold process_blocks in *. simpl. rewrite IH by done.
  unfold process_block. destruct (_ <? _); simpl; [lia|].
  destruct b; simpl in *; try discriminate; [|lia].
  destruct (drop _ text); simpl; lia.
Qed.

Lemma assistant_blocks_cons r stream :
  assistant_blocks (r :: stream)
  = match r with Recv (AssistantMessage c) => c | _ => [] end
    ++ assistant_blocks stream.
Proof. done. Qed.

Lemma receive_loop_all_counted before : ∀ l,
  Forall (λ r, continues r = true) before →
  Forall (λ b, counted b = true) (assistant_blocks before) →
  current_block_index (receive_loop l before)
  = current_block_index l + length (assistant_blocks before).
Proof.
  induction before as [|r before IH]; intros l Hc Hb.
  { unfold assistant_blocks. simpl. lia. }
  apply Forall_cons in Hc as [Hr Hc].
  rewrite assistant_blocks_cons in *. apply Forall_app in Hb as [Hb1 Hb2].
  destruct r as [[content|content| |is_error result]|e]; simpl in *;
    try discriminate.
  - rewrite IH, process_blocks_all_counted, length_app by done. lia.
  - destruct (tool_results content); [by apply IH|].
    by rewrite (IH (yield _ l)).
  - by apply IH.
Qed.

Lemma receive_loop_stops before is_error result after : ∀ l,
  Forall (λ r, continues r = true) before →
  receive_loop l (before ++ Recv (ResultMessage is_error result) :: after)
  = yield (if is_error then error_update (str_result result) else result_update)
      {| state :=
           {| total_blocks_seen := current_block_index (receive_loop l before);
              current_text_content :=
                current_text_content (state (receive_loop l before)) |};
         current_block_index := current_block_index (receive_loop l before);
         yielded := yielded (receive_loop l before) |}.
Proof.
  induction before as [|r before IH]; intros l Hc.
  - simpl. by destruct is_error.
  - apply Forall_cons in Hc as [Hr Hc].
    destruct r as [[content|content| |e r]|e]; simpl in *; try discriminate;
      try by apply IH.
    destruct (tool_results content); by apply IH.
Qed.

End Rerun.

(** ** Replay across two turns *)

Section Replay.

Implicit Types (l : Loop) (stream : list Received).

(** Skipped: with the cursor and the whole content below the stored count,
    a stream that goes on changes no state and yields the tool results of
    its user messages, nothing else. *)
Lemma receive_loop_replayed replay : ∀ l rest,
  Forall (λ r, continues r = true) replay →
  current_block_index l + length (assistant_blocks replay)
  ≤ total_blocks_seen (state l) →
  receive_loop l (replay ++ rest)
  = receive_loop
      {| state := state l;
         current_block_index :=
           current_block_index l + length (assistant_blocks replay);
         yielded := yielded l ++ user_results replay |}
      rest.
Proof.
  induction replay as [|r replay IH]; intros l rest Hc Hlen.
  { simpl. unfold assistant_blocks, user_results. simpl.
    rewrite app_nil_r, Nat.add_0_r. by destruct l. }
  apply Forall_cons in Hc as [Hr Hc].
  rewrite assistant_blocks_cons in *. rewrite length_app in *.
  destruct r as [[content|content| |is_error result]|e]; simpl in *;
    try discriminate.
  - rewrite process_blocks_skip by lia.
    rewrite IH; [|done|simpl; lia]. simpl. f_equal. f_equal. lia.
  - unfold user_results. simpl.
    destruct (tool_results content) as [|t ts].
    + by rewrite IH.
    + rewrite (IH (yield _ l)); [|done|simpl; lia]. simpl.
      by rewrite <- app_assoc.
  - by rewrite IH.
Qed.

End Replay.

(** C2 (as amended).  When an earlier turn reached its result message and
    its assistant messages held only text and tool-use blocks, k of them,
    the session's stored state records [total_blocks_seen = k]; a later
    turn of the session whose stream first delivers those k blocks again
    yields no update for them and leaves the state as it was: it behaves
    as the rest of the stream, processed with the cursor at k, after the
    progress update and the [tool_result] updates of the user messages
    that are replayed, which are yielded again. *)
Theorem C2_replay_is_silent
    (session_states : gmap Py.str State) (session_id : Py.str)
    (earlier : list Received) (is_error : bool) (result : option Py.str)
    (replay rest : list Received) :
  Forall (λ r, continues r = true) earlier →
  Forall (λ b, counted b = true) (assistant_blocks earlier) →
  Forall (λ r, continues r = true) replay →
  assistant_blocks replay = assistant_blocks earlier →
  let k := length (assistant_blocks earlier) in
  let stored :=
    (stream_message session_states session_id None
       (earlier ++ [Recv (ResultMessage is_error result)])).2 in
  ∃ st,
    stored !! session_id = Some st
    ∧ total_blocks_seen st = k
    ∧ stream_message stored session_id None (replay ++ rest)
      = let l := receive_loop
                   {| state := st; current_block_index := k;
                      yielded :=
                        progress_update «"Starting Claude Agent..."» 0
                        :: user_results replay |}
                   rest in
        (yielded l, <[session_id := state l]> stored).
Proof.
  intros Hc Hb Hr Hsame. cbv zeta.
  set (l0 := {| state := default fresh (session_states !! session_id);
                current_block_index := 0;
                yielded := [progress_update «"Starting Claude Agent..."» 0] |}).
  set (st := {| total_blocks_seen := length (assistant_blocks earlier);
                current_text_content :=
                  current_text_content (state (receive_loop l0 earlier)) |}).
  assert (Hstored :
            (stream_message session_states session_id None
               (earlier ++ [Recv (ResultMessage is_error result)])).2
            = <[session_id := st]> session_states).
  { unfold stream_message. fold l0. rewrite receive_loop_stops by done.
    pose proof (receive_loop_all_counted earlier l0 Hc Hb) as Hidx.
    simpl in Hidx. cbn [state yield snd]. by rewrite Hidx. }
  rewrite Hstored. exists st.
  split; [apply lookup_insert_eq|]. split; [done|].
  unfold stream_message. rewrite lookup_insert_eq. cbn [default].
  rewrite receive_loop_replayed; [|done|simpl; rewrite Hsame; lia].
  simpl. by rewrite Hsame.
Qed.

Lemma C2_replay_is_silent_witness :
  let earlier := [Recv (AssistantMessage [ToolUseBlock «"a"» «"LS"» ∅;
                                          ToolUseBlock «"b"» «"LS"» ∅;
                                          ToolUseBlock «"c"» «"LS"» ∅])] in
  let rest := [Recv (AssistantMessage [TextBlock «"done"»]);
               Recv (ResultMessage false None)] in
  let stored :=
    (stream_message ∅ Scenario.session None Scenario.tools_turn).2 in
  Forall (λ r, continues r = true) earlier
  ∧ Forall (λ b, counted b = true) (assistant_blocks earlier)
  ∧ (stream_message stored Scenario.session None Scenario.resumed_turn).1
    = [progress_update «"Starting Claude Agent..."» 0;
       text_update «"done"»; result_update].
Proof.
  assert (Hc : Forall (λ r, continues r = true)
                 [Recv (AssistantMessage [ToolUseBlock «"a"» «"LS"» ∅;
                                          ToolUseBlock «"b"» «"LS"» ∅;
                                          ToolUseBlock «"c"» «"LS"» ∅])])
    by (by repeat constructor).
  assert (Hb : Forall (λ b, counted b = true)
                 (assistant_blocks
                    [Recv (AssistantMessage [ToolUseBlock «"a"» «"LS"» ∅;
                                             ToolUseBlock «"b"» «"LS"» ∅;
                                             ToolUseBlock «"c"» «"LS"» ∅])]))
    by (by repeat constructor).
  split; [exact Hc|]. split; [exact Hb|].
  destruct (C2_replay_is_silent ∅ Scenario.session _ false None _
              [Recv (AssistantMessage [TextBlock «"done"»]);
               Recv (ResultMessage false None)] Hc Hb Hc eq_refl)
    as (st & Hst & Hk & Hrun).
  change Scenario.resumed_turn
    with ([Recv (AssistantMessage [ToolUseBlock «"a"» «"LS"» ∅;
                                   ToolUseBlock «"b"» «"LS"» ∅;
                                   ToolUseBlock «"c"» «"LS"» ∅])]
          ++ [Recv (AssistantMessage [TextBlock «"done"»]);
              Recv (ResultMessage false None)]).
  change Scenario.tools_turn
    with ([Recv (AssistantMessage [ToolUseBlock «"a"» «"LS"» ∅;
                                   ToolUseBlock «"b"» «"LS"» ∅;
                                   ToolUseBlock «"c"» «"LS"» ∅])]
          ++ [Recv (ResultMessage false None)]).
  rewrite Hrun. vm_compute in Hst. injection Hst as <-. reflexivity.
Defined.

(** C2 as stated fails when the earlier turn held a block that is neither
    text nor tool use: the turn consumes a thinking block, a text block
    and a tool call, and stores the count 2; the same stream replayed
    skips the first two blocks and yields the tool call again.  And the
    tool results of a replayed user message are yielded again. *)
Lemma C2_counterexample :
  let first :=
    stream_message ∅ Scenario.session None MoreScenarios.thinking_turn in
  let second :=
    stream_message first.2 Scenario.session None MoreScenarios.thinking_turn in
  let round :=
    stream_message ∅ Scenario.session None MoreScenarios.tool_round in
  let again :=
    stream_message round.2 Scenario.session None MoreScenarios.tool_round in
  first.1 = [progress_update «"Starting Claude Agent..."» 0;
             text_update «"Hi"»; tool_use_update «"LS"» ∅ «"a"»;
             result_update]
  ∧ first.2 !! Scenario.session
    = Some {| total_blocks_seen := 2; current_text_content := [] |}
  ∧ second.1 = [progress_update «"Starting Claude Agent..."» 0;
                tool_use_update «"LS"» ∅ «"a"»; result_update]
  ∧ round.2 !! Scenario.session
    = Some {| total_blocks_seen := 1; current_text_content := [] |}
  ∧ again.1 = [progress_update «"Starting Claude Agent..."» 0;
               tool_result_update [tool_result_entry «"a"» None];
               result_update].
Proof. repeat split; vm_compute; reflexivity. Qed.

(** X7.  Running the same stream a second time is silent: when a turn
    reaches its result message and its assistant messages hold only text
    and tool-use blocks, a second call of [stream_message] on the same
    stream surfaces no block again (it yields no [assistant] update) and
    leaves the stored session states as the first call left them. *)
Theorem rerun_is_silent
    (session_states : gmap Py.str State) (session_id : Py.str)
    (before : list Received) (is_error : bool) (result : option Py.str) :
  Forall (λ r, continues r = true) before →
  Forall (λ b, counted b = true) (assistant_blocks before) →
  let turn := before ++ [Recv (ResultMessage is_error result)] in
  let first := stream_message session_states session_id None turn in
  let second := stream_message first.2 session_id None turn in
  second.2 = first.2
  ∧ Forall (λ u, u_type u ≠ "assistant"%string) second.1.
Proof.
  intros Hc Hb. cbv zeta. unfold stream_message. simpl.
  rewrite lookup_insert_eq. simpl.
  rewrite !receive_loop_stops by done.
  set (l0 := {| state := default fresh (session_states !! session_id);
                current_block_index := 0;
                yielded := [progress_update «"Starting Claude Agent..."» 0] |}).
  pose proof (receive_loop_all_counted before l0 Hc Hb) as Hidx. simpl in Hidx.
  cbn [state yield current_block_index yielded].
  rewrite Hidx.
  set (st1 := {| total_blocks_seen := length (assistant_blocks before);
                 current_text_content :=
                   current_text_content (state (receive_loop l0 before)) |}).
  set (l1 := {| state := st1; current_block_index := 0;
                yielded := [progress_update «"Starting Claude Agent..."» 0] |}).
  destruct (receive_loop_replay before l1 Hc) as (Hs & Hi & new & Hy & Hn);
    [simpl; lia|].
  simpl in Hi. rewrite Hs, Hi, Hy. simpl. split.
  - by rewrite insert_insert_eq.
  - constructor; [done|]. apply Forall_app. split.
    + eapply Forall_impl; [exact Hn|]. intros u Hu. by rewrite Hu.
    + constructor; [by destruct is_error|constructor].
Qed.

Lemma rerun_is_silent_witness :
  let before := [Recv (AssistantMessage [ToolUseBlock «"a"» «"LS"» ∅;
                                         ToolUseBlock «"b"» «"LS"» ∅;
                                         ToolUseBlock «"c"» «"LS"» ∅])] in
  let first := stream_message ∅ Scenario.session None Scenario.tools_turn in
  Forall (λ r, continues r = true) before
  ∧ Forall (λ b, counted b = true) (assistant_blocks before)
  ∧ (stream_message first.2 Scenario.session None Scenario.tools_turn).2
    = first.2.
Proof.
  assert (Hc : Forall (λ r, continues r = true)
                 [Recv (AssistantMessage [ToolUseBlock «"a"» «"LS"» ∅;
                                          ToolUseBlock «"b"» «"LS"» ∅;
                                          ToolUseBlock «"c"» «"LS"» ∅])])
    by (by repeat constructor).
  assert (Hb : Forall (λ b, counted b = true)
                 (assistant_blocks
                    [Recv (AssistantMessage [ToolUseBlock «"a"» «"LS"» ∅;
                                             ToolUseBlock «"b"» «"LS"» ∅;
                                             ToolUseBlock «"c"» «"LS"» ∅])]))
    by (by repeat constructor).
  split; [exact Hc|]. split; [exact Hb|].
  exact (proj1 (rerun_is_silent ∅ Scenario.session _ false None Hc Hb)).
Defined.

(** X8.  A result message does not clear the stored text.  In a session
    whose first turn streamed one text block [t1], a second turn that
    replays it and brings a new text block [t2] surfaces [t2] without its
    first [len(t1)] characters, and surfaces nothing when [t2] is no longer
    than [t1]. *)
Theorem new_text_block_loses_stored_length
    (session_states : gmap Py.str State) (session_id : Py.str)
    (t1 t2 : Py.str) :
  session_states !! session_id = None →
  t1 ≠ [] →
  let turn1 := [Recv (AssistantMessage [TextBlock t1]);
                Recv (ResultMessage false None)] in
  let turn2 := [Recv (AssistantMessage [TextBlock t1; TextBlock t2]);
                Recv (ResultMessage false None)] in
  let after1 := (stream_message session_states session_id None turn1).2 in
  after1 !! session_id
  = Some {| total_blocks_seen := 1; current_text_content := t1 |}
  ∧ text_deltas (stream_message after1 session_id None turn2).1
    = match drop (length t1) t2 with
      | [] => []
      | delta => [delta]
      end.
Proof.
  intros Hnew Ht1. cbv zeta. unfold stream_message. rewrite Hnew. simpl.
  rewrite !lookup_insert_eq. unfold process_blocks, process_block. simpl.
  destruct t1 as [|c t1]; [done|]. simpl. split; [done|].
  by destruct (drop (S (length t1)) t2).
Qed.

Lemma new_text_block_loses_stored_length_witness :
  (∅ : gmap Py.str State) !! Scenario.session = None
  ∧ «"Hello"» ≠ []
  ∧ text_deltas
      (stream_message
         (stream_message ∅ Scenario.session None
            [Recv (AssistantMessage [TextBlock «"Hello"»]);
             Recv (ResultMessage false None)]).2
         Scenario.session None
         [Recv (AssistantMessage [TextBlock «"Hello"»; TextBlock «"Goodbye"»]);
          Recv (ResultMessage false None)]).1
    = [«"ye"»].
Proof.
  split; [reflexivity|]. split; [discriminate|].
  exact (proj2 (new_text_block_loses_stored_length ∅ Scenario.session
                  «"Hello"» «"Goodbye"» eq_refl ltac:(discriminate))).
Defined.


Import BotLaws.

(** ** The event log under every update *)

Section LogLaws.

Variable py_str : Py.val → Py.str.
Variable transport : list Call → Call → Outcome.

Implicit Types (s : StreamState) (u : StreamUpdate) (evs : list Event).

Lemma events_after_update t u s :
  events (stream_handler py_str transport t u s) = log_step u (events s).
Proof.
  unfold log_step.
  destruct (String.eqb (u_type u) "assistant" && nonempty (u_tool_calls u))
    eqn:E1.
  { apply (rendered_at_once py_str transport
             (λ evs, evs ++ (tool_event <$> default [] (u_tool_calls u)))).
    unfold handle_update. by rewrite E1. }
  destruct (String.eqb (u_type u) "tool_result" && nonempty (u_tool_calls u))
    eqn:E2.
  { apply (rendered_at_once py_str transport
             (mark_results (default [] (u_tool_calls u)))).
    unfold handle_update. by rewrite E1, E2. }
  destruct (String.eqb (u_type u) "result") eqn:E3.
  { apply (rendered_at_once py_str transport finish_all).
    unfold handle_update. by rewrite E1, E2, E3. }
  unfold stream_handler, handle_update. rewrite E1, E2, E3.
  destruct (String.eqb (u_type u) "assistant" && nonempty (u_content u));
    [|done].
  simpl. destruct (last_update_time s); [|done].
  destruct (_ || _); [|done].
  match goal with
  | |- context [update_stream_message _ _ ?x] =>
      pose proof (update_stream_message_frame py_str transport x) as (He & _);
      destruct (update_stream_message py_str transport x) as [s' [e|]]
  end; simpl in *.
  - destruct (on_exception_frame transport e s') as (He' & _).
    by rewrite He', He.
  - done.
Qed.

Lemma evolves_refl e : evolves e e.
Proof. destruct e; simpl; auto. Qed.

Lemma evolves_all_refl evs : Forall2 evolves evs evs.
Proof. induction evs; constructor; auto using evolves_refl. Qed.

Lemma evolves_trans e1 e2 e3 : evolves e1 e2 → evolves e2 e3 → evolves e1 e3.
Proof.
  destruct e1, e2, e3; simpl; try done.
  - intros (-> & -> & -> & H1) (-> & -> & -> & H2). repeat split; auto.
  - intros H1 H2. by etrans.
Qed.

Lemma extends_refl evs : extends evs evs.
Proof.
  exists evs, []. rewrite app_nil_r. split; [done|].
  apply evolves_all_refl.
Qed.

Lemma extends_trans evs1 evs2 evs3 :
  extends evs1 evs2 → extends evs2 evs3 → extends evs1 evs3.
Proof.
  intros (old1 & new1 & -> & H1) (old2 & new2 & -> & H2).
  apply Forall2_app_inv_l in H2 as (o2a & o2b & Ha & Hb & ->).
  exists o2a, (o2b ++ new2). rewrite app_assoc. split; [done|].
  clear Hb. revert o2a Ha. induction H1 as [|x y l l' Hxy H1 IH];
    intros o2a Ha.
  - apply Forall2_nil_inv_l in Ha as ->. constructor.
  - apply Forall2_cons_inv_l in Ha as (z & o' & Hyz & Ho & ->).
    constructor; [by eapply evolves_trans|by apply IH].
Qed.

Lemma extends_same_length evs evs' :
  Forall2 evolves evs evs' → extends evs evs'.
Proof. intros H. exists evs', []. by rewrite app_nil_r. Qed.

Lemma mark_done_evolves tool_id evs : Forall2 evolves evs (mark_done tool_id evs).
Proof.
  induction evs as [|[name input id status|content] evs IH]; simpl;
    [constructor| |].
  - case_bool_decide.
    + constructor; [by simpl|apply evolves_all_refl].
    + constructor; [apply evolves_refl|done].
  - constructor; [apply evolves_refl|done].
Qed.

Lemma finish_all_evolves evs : Forall2 evolves evs (finish_all evs).
Proof.
  induction evs as [|e evs IH]; [constructor|].
  constructor; [|done]. destruct e as [name input id []|content]; simpl; auto.
Qed.

Lemma merge_text_extends content evs : extends evs (merge_text content evs).
Proof.
  unfold merge_text. destruct evs as [|e evs _] using rev_ind.
  { exists [], [TextEvent content]. split; [done|constructor]. }
  rewrite last_snoc. destruct e as [name input id status|c].
  - exists (evs ++ [ToolEvent name input id status]), [TextEvent content].
    split; [done|]. apply evolves_all_refl.
  - rewrite length_app. simpl.
    replace (pred (length evs + 1)) with (length evs + 0) by lia.
    rewrite insert_app_r. simpl.
    apply extends_same_length. apply Forall2_app.
    + apply evolves_all_refl.
    + constructor; [|constructor]. simpl. by apply prefix_app_r.
Qed.

Lemma log_step_extends u evs : extends evs (log_step u evs).
Proof.
  unfold log_step. repeat case_match.
  - exists evs, (tool_event <$> default [] (u_tool_calls u)). split; [done|].
    apply evolves_all_refl.
  - unfold mark_results. generalize (default [] (u_tool_calls u)).
    intros results. revert evs.
    induction results as [|r results IH]; intros evs; simpl;
      [apply extends_refl|].
    eapply extends_trans; [|apply IH].
    apply extends_same_length, mark_done_evolves.
  - apply extends_same_length, finish_all_evolves.
  - apply merge_text_extends.
  - apply extends_refl.
Qed.

End LogLaws.

(** X9.  The event log is a function of the updates alone: after any
    sequence of updates it is the fold of [log_step] over them, whatever
    Telegram answered and whatever the clock showed; and it only grows:
    every entry of the earlier log is still there at its index, a tool
    entry with the same name, input and id and never back from [done] to
    [running], a text entry with its old content as a prefix. *)
Theorem log_grows_in_place
    (py_str : Py.val → Py.str) (transport : list Call → Call → Outcome)
    (deliveries : list (Q * StreamUpdate)) (s : StreamState) :
  events (stream_updates py_str transport deliveries s)
  = foldl (λ evs d, log_step d.2 evs) (events s) deliveries
  ∧ extends (events s) (events (stream_updates py_str transport deliveries s)).
Proof.
  assert (H : events (stream_updates py_str transport deliveries s)
              = foldl (λ evs d, log_step d.2 evs) (events s) deliveries).
  { unfold stream_updates. revert s.
    induction deliveries as [|[t u] rest IH]; intros s; [done|].
    simpl. by rewrite IH, events_after_update. }
  split; [exact H|]. rewrite H. generalize (events s). clear H.
  induction deliveries as [|[t u] rest IH]; intros evs; simpl.
  - apply extends_refl.
  - eapply extends_trans; [apply log_step_extends|apply IH].
Qed.


(** ** The display text *)

Section Parts.

Variable py_str : Py.val → Py.str.

Lemma message_parts_by_neighbour evs : ∀ tool_counter has_separator,
  message_parts py_str evs tool_counter has_separator
  = parts_by_neighbour py_str ((0 <? tool_counter) && negb has_separator)
      tool_counter evs.
Proof.
  induction evs as [|[name input id status|content] evs IH];
    intros tool_counter has_separator; simpl; [done| |].
  - by rewrite IH.
  - destruct ((0 <? tool_counter) && negb has_separator) eqn:E.
    + rewrite IH. simpl. by rewrite andb_false_r.
    + rewrite IH. by rewrite E.
Qed.

End Parts.

(** X10.  In the display text a text entry is preceded by the separator
    line exactly when the entry right before it in the log is a tool entry
    (so after every run of tools, not only after the first), and the tool
    lines are numbered 1, 2, 3, ... in the order of the log. *)
Theorem separator_follows_tools
    (py_str : Py.val → Py.str) (evs : list Event) :
  message_parts py_str evs 0 false = parts_by_neighbour py_str false 0 evs.
Proof. apply message_parts_by_neighbour. Qed.

(** ** What is sent to Telegram *)

Section Calls.

Variable py_str : Py.val → Py.str.
Variable transport : list Call → Call → Outcome.

Implicit Types (s : StreamState) (chunk : Py.str) (c : Call).

Lemma said_nothing P s : said P s s.
Proof. split; [done|]. exists []. by rewrite app_nil_r. Qed.

Lemma said_same P s s' :
  accumulated_text s' = accumulated_text s → calls s' = calls s → said P s s'.
Proof.
  intros Ha Hc. split; [done|]. exists []. by rewrite app_nil_r.
Qed.

Lemma said_trans P s1 s2 s3 : said P s1 s2 → said P s2 s3 → said P s1 s3.
Proof.
  intros (Ha & n1 & H1 & F1) (Hb & n2 & H2 & F2). split; [congruence|].
  exists (n1 ++ n2). rewrite H2, H1, app_assoc. split; [done|].
  by apply Forall_app.
Qed.

Lemma said_weaken (P R : Call → Prop) s s' :
  (∀ c, P c → R c) → said P s s' → said R s s'.
Proof.
  intros HPR (Ha & n & H & F). split; [done|]. exists n. split; [done|].
  by eapply Forall_impl.
Qed.

Lemma update_chunk_said i chunk s :
  said (markdown_of [chunk]) s (update_chunk transport i chunk s).1.
Proof.
  unfold update_chunk.
  repeat case_match; simpl; try apply said_nothing;
    (split; [done|]; eexists [_]; split; [done|];
     constructor; [|constructor]; split; [done|by left]).
Qed.

Lemma update_chunks_said chunks : ∀ i s,
  said (markdown_of chunks) s (update_chunks transport i chunks s).1.
Proof.
  induction chunks as [|chunk rest IH]; intros i s; simpl;
    [apply said_nothing|].
  pose proof (update_chunk_said i chunk s) as H1.
  destruct (update_chunk transport i chunk s) as [s1 [e|]]; simpl in *.
  - eapply said_weaken; [|exact H1]. intros c [Hm Hc]. split; [done|].
    apply list_elem_of_singleton in Hc as ->. by left.
  - eapply said_trans.
    + eapply said_weaken; [|exact H1]. intros c [Hm Hc]. split; [done|].
      apply list_elem_of_singleton in Hc as ->. by left.
    + eapply said_weaken; [|apply IH]. intros c [Hm Hc]. split; [done|].
      by right.
Qed.

Lemma chunk_sizes text chunk :
  chunk ∈ split_chunks text → 0 < length chunk ≤ CHUNK_SIZE.
Proof.
  rewrite split_chunks_windows. intros H.
  apply list_elem_of_fmap in H as (k & -> & Hk).
  apply elem_of_seq in Hk as [_ Hk].
  assert (Hpos : 0 < CHUNK_SIZE) by (unfold CHUNK_SIZE; lia).
  destruct (div_up_least (length text) CHUNK_SIZE Hpos) as [_ Hleast].
  assert (k * CHUNK_SIZE < length text).
  { destruct (Nat.le_gt_cases (length text) (k * CHUNK_SIZE)) as [Hle|]; [|done].
    specialize (Hleast k Hle). lia. }
  rewrite length_take, length_drop. lia.
Qed.

Lemma update_stream_message_said s :
  said markdown_chunk s (update_stream_message py_str transport s).1.
Proof.
  unfold update_stream_message.
  destruct (events (record_render s)); [by apply said_same|].
  destruct (combined_text _ _) as [text|]; [|by apply said_same].
  destruct (Py.strip text); [by apply said_same|].
  pose proof (update_chunks_said (split_chunks text) 0 (record_render s)) as H.
  eapply said_trans; [by apply (said_same _ s (record_render s))|].
  eapply said_weaken; [|exact H].
  intros c [Hm Hc]. split; [done|]. by eapply chunk_sizes.
Qed.

Lemma on_exception_said e s :
  accumulated_text s = [] → said empty_plain s (on_exception transport e s).
Proof.
  intros Ha. unfold on_exception. rewrite Ha.
  repeat case_match; simpl; try apply said_nothing;
    (split; [done|]; eexists [_]; split; [done|]; by repeat constructor).
Qed.

Lemma handle_update_said t u s :
  said markdown_chunk s (handle_update py_str transport t u s).1.
Proof.
  assert (Hrender : ∀ evs,
            said markdown_chunk s
              (update_stream_message py_str transport (set_events evs s)).1).
  { intros evs. eapply said_trans; [|apply update_stream_message_said].
    by apply said_same. }
  unfold handle_update.
  repeat match goal with
  | |- context [if ?b then _ else _] => destruct b; try apply Hrender
  end; try by apply said_same.
  simpl. destruct (last_update_time s); [|by apply said_same].
  destruct (_ || _); [|by apply said_same].
  specialize (Hrender (merge_text (default [] (u_content u)) (events s))).
  destruct (update_stream_message _ _ _) as [s' [e|]]; simpl in *; [done|].
  eapply said_trans; [exact Hrender|]. by apply said_same.
Qed.

Lemma stream_handler_said t u s :
  accumulated_text s = [] →
  said (λ c, markdown_chunk c ∨ empty_plain c) s
       (stream_handler py_str transport t u s).
Proof.
  intros Ha. unfold stream_handler.
  pose proof (handle_update_said t u s) as H.
  destruct (handle_update py_str transport t u s) as [s' [e|]]; simpl in *.
  - eapply said_trans.
    + eapply said_weaken; [|exact H]. by left.
    + eapply said_weaken; [|apply on_exception_said].
      * by right.
      * destruct H as [-> _]. done.
  - eapply said_weaken; [|exact H]. by left.
Qed.

End Calls.


(** X11.  Every call the stream handler makes on Telegram during a turn is
    either a Markdown call whose text has between 1 and 4000 characters
    (a chunk of the transcript) or a call without parse mode whose text is
    empty: [accumulated_text] is never assigned, so the retry after a
    parse error sends the empty string and not the transcript. *)
Theorem calls_are_chunks_or_empty_retries
    (py_str : Py.val → Py.str) (transport : list Call → Call → Outcome)
    (deliveries : list (Q * StreamUpdate)) :
  let s := stream_updates py_str transport deliveries initial in
  accumulated_text s = []
  ∧ Forall (λ c, markdown_chunk c ∨ empty_plain c) (calls s).
Proof.
  cbv zeta. unfold stream_updates.
  assert (H : ∀ s0, accumulated_text s0 = [] →
            said (λ c, markdown_chunk c ∨ empty_plain c) s0
              (foldl (λ s d, stream_handler py_str transport d.1 d.2 s)
                 s0 deliveries)).
  { induction deliveries as [|[t u] rest IH]; intros s0 H0; simpl.
    - by apply said_same.
    - pose proof (stream_handler_said py_str transport t u s0 H0) as H1.
      eapply said_trans; [exact H1|]. apply IH.
      destruct H1 as [-> _]. done. }
  destruct (H initial eq_refl) as (Ha & new & Hc & Hf).
  split; [by rewrite Ha|]. by rewrite Hc.
Qed.

Lemma calls_are_chunks_or_empty_retries_witness :
  let s := stream_updates Scenario.str_of_val MoreScenarios.refusing_markdown
             [(1 # 1, tool_use_update «"X"» ∅ «"1"»)] initial in
  calls s = [ReplyText (tool_line 1 (Some «"X"») running [])
               (Some "Markdown"%string);
             ReplyText [] None]
  ∧ Forall (λ c, markdown_chunk c ∨ empty_plain c) (calls s).
Proof.
  split; [vm_compute; reflexivity|].
  apply (calls_are_chunks_or_empty_retries Scenario.str_of_val
           MoreScenarios.refusing_markdown).
Defined.

(** ** A tool entry that cannot be printed *)

Section Unprintable.

Variable py_str : Py.val → Py.str.
Variable transport : list Call → Call → Outcome.

Implicit Types (s : StreamState) (evs : list Event).

Lemma tool_details_raises name input x :
  tool_details py_str name input = Raise x → is_parse_error x = false.
Proof.
  unfold tool_details. repeat case_match; simpl; intros; by simplify_eq.
Qed.

Lemma message_parts_raises evs : ∀ tool_counter has_separator,
  Exists (unprintable py_str) evs →
  ∃ x, message_parts py_str evs tool_counter has_separator = Raise x
       ∧ is_parse_error x = false.
Proof.
  induction evs as [|[name input id status|content] evs IH];
    intros tool_counter has_separator H.
  - by apply Exists_nil in H.
  - simpl. destruct (tool_details py_str name input) as [details|x] eqn:E.
    + apply Exists_cons in H as [[y Hy]|H]; [congruence|].
      destruct (IH (S tool_counter) false H) as (x & -> & Hx). simpl. eauto.
    + simpl. exists x. split; [done|]. by eapply tool_details_raises.
  - apply Exists_cons in H as [[]|H]. simpl.
    destruct (_ && _).
    + destruct (IH tool_counter true H) as (x & -> & Hx). simpl. eauto.
    + destruct (IH tool_counter has_separator H) as (x & -> & Hx). simpl. eauto.
Qed.

Lemma render_raises s :
  Exists (unprintable py_str) (events s) →
  ∃ x, update_stream_message py_str transport s = (record_render s, Some x)
       ∧ is_parse_error x = false.
Proof.
  intros H. unfold update_stream_message. simpl.
  destruct (events s) as [|e evs] eqn:E; [by apply Exists_nil in H|].
  unfold combined_text.
  destruct (message_parts_raises (e :: evs) 0 false H) as (x & -> & Hx).
  simpl. eauto.
Qed.

Lemma unprintable_stays evs evs' :
  extends evs evs' →
  Exists (unprintable py_str) evs → Exists (unprintable py_str) evs'.
Proof.
  intros (old & new & -> & Hf) H. apply Exists_app. left.
  induction Hf as [|e e' l l' He Hf IH]; [done|].
  apply Exists_cons in H as [H|H]; [|right; by apply IH]. left.
  destruct e as [name input id status|c], e' as [name' input' id' status'|c'];
    simpl in *; try done.
  by destruct He as (-> & -> & _).
Qed.

Lemma stream_handler_frozen t u s :
  Exists (unprintable py_str) (events s) →
  calls (stream_handler py_str transport t u s) = calls s
  ∧ messages (stream_handler py_str transport t u s) = messages s
  ∧ message_contents (stream_handler py_str transport t u s)
    = message_contents s.
Proof.
  intros H.
  assert (Hrender : ∀ evs, Exists (unprintable py_str) evs →
            ∃ x, update_stream_message py_str transport (set_events evs s)
                 = (record_render (set_events evs s), Some x)
                 ∧ is_parse_error x = false).
  { intros evs Hevs. by apply render_raises. }
  pose proof (unprintable_stays _ _ (log_step_extends u (events s)) H) as Hlog.
  unfold log_step in Hlog. unfold stream_handler, handle_update.
  repeat match goal with
  | |- context [if ?b then _ else _] => destruct b
  end;
  try (destruct (Hrender _ Hlog) as (x & -> & Hx);
       unfold on_exception; by rewrite Hx);
  try done.
  simpl. destruct (last_update_time s); [|done].
  destruct (_ || _); [|done].
  destruct (Hrender _ Hlog) as (x & -> & Hx).
  unfold on_exception. by rewrite Hx.
Qed.

End Unprintable.

(** X12.  Once the log holds a tool entry whose summary line cannot be
    built (a [Bash] call whose [command] is not a string, or a file tool
    whose first [paths] element is not a string), every later render of
    the turn raises before anything is sent: whatever updates follow, no
    call is made on Telegram and the sent messages stay as they were. *)
Theorem unprintable_tool_freezes_transcript
    (py_str : Py.val → Py.str) (transport : list Call → Call → Outcome)
    (deliveries : list (Q * StreamUpdate)) (s : StreamState) :
  Exists (unprintable py_str) (events s) →
  let s' := stream_updates py_str transport deliveries s in
  calls s' = calls s ∧ messages s' = messages s
  ∧ message_contents s' = message_contents s.
Proof.
  cbv zeta. unfold stream_updates. revert s.
  induction deliveries as [|[t u] rest IH]; intros s H; [done|].
  simpl.
  destruct (stream_handler_frozen py_str transport t u s H) as (Hc & Hm & Hk).
  destruct (IH (stream_handler py_str transport t u s)) as (Hc' & Hm' & Hk').
  - rewrite events_after_update.
    by eapply unprintable_stays; [apply log_step_extends|].
  - by rewrite Hc', Hm', Hk'.
Qed.

Lemma unprintable_tool_freezes_transcript_witness :
  let bad := tool_use_update «"Bash"» {[ «"command"» := Py.VNum 7 ]} «"1"» in
  let s := stream_handler Scenario.str_of_val Scenario.accepting (1 # 1) bad
             initial in
  Exists (unprintable Scenario.str_of_val) (events s)
  ∧ calls (stream_updates Scenario.str_of_val Scenario.accepting
             Scenario.three_renders s) = [].
Proof.
  assert (H : Exists (unprintable Scenario.str_of_val)
                (events (stream_handler Scenario.str_of_val Scenario.accepting
                           (1 # 1)
                           (tool_use_update «"Bash"»
                              {[ «"command"» := Py.VNum 7 ]} «"1"»)
                           initial))).
  { rewrite events_after_update. left. exists AttributeError.
    vm_compute. reflexivity. }
  split; [exact H|].
  destruct (unprintable_tool_freezes_transcript Scenario.str_of_val
              Scenario.accepting Scenario.three_renders _ H) as (-> & _).
  vm_compute. reflexivity.
Defined.


(** ** Topic state *)

Section TopicKeys.

Import ContextManager.

Lemma lit_inj s s' : Py.lit s = Py.lit s' → s = s'.
Proof.
  unfold Py.lit. revert s'. induction s as [|a s IH]; intros [|a' s'];
    simpl; intros H; try done.
  injection H as Ha Hs. f_equal.
  - rewrite <- (ascii_N_embedding a), <- (ascii_N_embedding a'). by rewrite Ha.
  - by apply IH.
Qed.

Lemma str_of_int_inj n n' : str_of_int n = str_of_int n' → n = n'.
Proof.
  unfold str_of_int. intros H. apply lit_inj in H.
  assert (Hn : ∀ z, Z.to_int z ≠ Decimal.Pos Decimal.Nil
                    ∧ Z.to_int z ≠ Decimal.Neg Decimal.Nil).
  { intros [|p|p]; simpl; split; try done; intros [= E];
      by apply DecimalPos.Unsigned.to_uint_nonnil in E. }
  apply (f_equal NilZero.int_of_string) in H.
  rewrite !NilZero.isi in H by apply Hn.
  injection H as H. apply (f_equal Z.of_int) in H.
  by rewrite !DecimalZ.of_to in H.
Qed.

Lemma uint_no_colon d : 58%N ∉ Py.lit (NilEmpty.string_of_uint d).
Proof.
  induction d; simpl; unfold Py.lit in *; simpl;
    rewrite ?not_elem_of_cons; try split; try done; apply not_elem_of_nil.
Qed.

Lemma str_of_int_no_colon n : 58%N ∉ str_of_int n.
Proof.
  unfold str_of_int.
  assert (H : ∀ d, 58%N ∉ Py.lit (NilZero.string_of_uint d)).
  { intros d. destruct d; try apply uint_no_colon.
    unfold Py.lit. simpl. rewrite not_elem_of_cons. split; [done|].
    apply not_elem_of_nil. }
  destruct (Z.to_int n) as [d|d]; simpl; [apply H|].
  unfold Py.lit in *. simpl. rewrite not_elem_of_cons. split; [done|apply H].
Qed.

Lemma split_at_colon (a a' b b' : Py.str) :
  58%N ∉ a → 58%N ∉ a' →
  a ++ 58%N :: b = a' ++ 58%N :: b' → a = a' ∧ b = b'.
Proof.
  revert a'. induction a as [|x a IH]; intros [|x' a'] Ha Ha' H; simpl in *.
  - by injection H.
  - injection H as Hx _. exfalso. apply Ha'. rewrite <- Hx. by left.
  - injection H as Hx _. exfalso. apply Ha. rewrite Hx. by left.
  - injection H as Hx H. subst x'.
    apply not_elem_of_cons in Ha as [_ Ha], Ha' as [_ Ha'].
    destruct (IH a' Ha Ha' H) as [-> ->]. done.
Qed.

End TopicKeys.

(** X13.  Two updates get the same context key exactly when they come from
    the same chat and the same thread, where a missing thread id and the
    thread id 0 both stand for the chat itself. *)
Theorem context_key_identifies_topic (u u' : ContextManager.Update) :
  ContextManager.get_context_key u = ContextManager.get_context_key u'
  ↔ ContextManager.chat_id u = ContextManager.chat_id u'
    ∧ ContextManager.thread_of u = ContextManager.thread_of u'.
Proof.
  unfold ContextManager.get_context_key, ContextManager.thread_of.
  destruct u as [c t], u' as [c' t']. simpl.
  assert (Hplain : ∀ a b n, ContextManager.str_of_int a
                     ≠ ContextManager.str_of_int b ++ «":"»
                       ++ ContextManager.str_of_int n).
  { intros a b n H. apply (str_of_int_no_colon a). rewrite H.
    apply elem_of_app. right. by left. }
  split.
  - intros H.
    destruct t as [t|], t' as [t'|]; repeat case_bool_decide;
      try (by apply str_of_int_inj in H; subst);
      try (by apply Hplain in H);
      try (by symmetry in H; apply Hplain in H).
    apply split_at_colon in H as [Hc Ht]; try apply str_of_int_no_colon.
    apply str_of_int_inj in Hc, Ht. by subst.
  - intros [-> H].
    destruct t as [t|], t' as [t'|]; repeat case_bool_decide;
      by simplify_eq.
Qed.


Section TopicStates.

Import ContextManager.

Implicit Types (chat_data : ChatData) (key : Py.str) (update : Update).

Lemma get_state_returns chat_data key :
  (get_state chat_data key).2 = stored chat_data key.
Proof.
  unfold get_state, stored. simpl.
  destruct (default ∅ chat_data !! key) eqn:E;
    rewrite ?lookup_insert_eq, ?E; done.
Qed.

Lemma get_state_keeps chat_data key key' :
  stored (get_state chat_data key).1 key' = stored chat_data key'.
Proof.
  unfold get_state, stored. simpl.
  destruct (default ∅ chat_data !! key) eqn:E; [done|].
  destruct (decide (key = key')) as [<-|Hne].
  - rewrite lookup_insert_eq, ?E; done.
  - by rewrite lookup_insert_ne.
Qed.

Lemma fetch_returns {A} (read : TopicState → A) update chat_data :
  (fetch read update chat_data).2
  = read (stored chat_data (get_context_key update)).
Proof.
  unfold fetch.
  pose proof (get_state_returns chat_data (get_context_key update)) as H.
  destruct (get_state chat_data (get_context_key update)). simpl in *.
  by rewrite H.
Qed.

Lemma fetch_keeps {A} (read : TopicState → A) update chat_data key :
  stored (fetch read update chat_data).1 key = stored chat_data key.
Proof.
  unfold fetch.
  pose proof (get_state_keeps chat_data (get_context_key update) key) as H.
  by destruct (get_state chat_data (get_context_key update)).
Qed.

Lemma assign_stores change update chat_data key :
  stored (assign change update chat_data) key
  = if decide (key = get_context_key update)
    then change (stored chat_data key)
    else stored chat_data key.
Proof.
  unfold assign.
  pose proof (get_state_returns chat_data (get_context_key update)) as Hr.
  pose proof (get_state_keeps chat_data (get_context_key update) key) as Hk.
  destruct (get_state chat_data (get_context_key update)) as [cd st].
  simpl in *. unfold stored at 1. simpl. case_decide as E.
  - subst key. by rewrite lookup_insert_eq, Hr.
  - rewrite lookup_insert_ne by done. exact Hk.
Qed.

Lemma answers_of_stored approved_directory update chat_data :
  answers approved_directory update chat_data
  = let state := stored chat_data (get_context_key update) in
    {| directory := default approved_directory (current_directory state);
       session := default None (claude_session_id state);
       started := default false (session_started state);
       pinned := default None (pinned_message_id state);
       status := default «"ready"» (current_status state) |}.
Proof.
  unfold answers, get_current_directory, get_session_id, get_session_started,
    get_pinned_message_id, get_current_status.
  by rewrite !fetch_returns.
Qed.

End TopicStates.

(** X14.  Reading is not observable: whichever of the five getters is
    called, for whichever topic, every topic answers all five getters
    afterwards as it did before (the dicts the call creates are empty);
    and a topic that was never written answers with the defaults: the
    approved directory, no session id, not started, no pinned message and
    status "ready". *)
Theorem getters_change_no_answer
    (approved : Py.str) (asked any : ContextManager.Update)
    (chat_data : ContextManager.ChatData) :
  let same cd := ContextManager.answers approved any cd
                 = ContextManager.answers approved any chat_data in
  same (ContextManager.get_current_directory approved asked chat_data).1
  ∧ same (ContextManager.get_session_id asked chat_data).1
  ∧ same (ContextManager.get_session_started asked chat_data).1
  ∧ same (ContextManager.get_pinned_message_id asked chat_data).1
  ∧ same (ContextManager.get_current_status asked chat_data).1
  ∧ ContextManager.answers approved any None
    = {| ContextManager.directory := approved;
         ContextManager.session := None;
         ContextManager.started := false;
         ContextManager.pinned := None;
         ContextManager.status := «"ready"» |}.
Proof.
  cbv zeta. rewrite !answers_of_stored.
  unfold ContextManager.get_current_directory, ContextManager.get_session_id,
    ContextManager.get_session_started, ContextManager.get_pinned_message_id,
    ContextManager.get_current_status.
  rewrite !fetch_keeps. repeat split.
Qed.

(** X15.  A setter is read back by its getter in the same topic, leaves
    the other four answers of that topic as they were, and leaves every
    answer of every other topic as it was. *)
Theorem setters_write_one_answer
    (approved : Py.str) (written read : ContextManager.Update)
    (chat_data : ContextManager.ChatData) :
  let before := ContextManager.answers approved read chat_data in
  let here := bool_decide (ContextManager.get_context_key read
                           = ContextManager.get_context_key written) in
  (∀ path,
     ContextManager.answers approved read
       (ContextManager.set_current_directory path written chat_data)
     = if here
       then {| ContextManager.directory := path;
               ContextManager.session := ContextManager.session before;
               ContextManager.started := ContextManager.started before;
               ContextManager.pinned := ContextManager.pinned before;
               ContextManager.status := ContextManager.status before |}
       else before)
  ∧ (∀ session_id,
       ContextManager.answers approved read
         (ContextManager.set_session_id session_id written chat_data)
       = if here
         then {| ContextManager.directory := ContextManager.directory before;
                 ContextManager.session := session_id;
                 ContextManager.started := ContextManager.started before;
                 ContextManager.pinned := ContextManager.pinned before;
                 ContextManager.status := ContextManager.status before |}
         else before)
  ∧ (∀ flag,
       ContextManager.answers approved read
         (ContextManager.set_session_started flag written chat_data)
       = if here
         then {| ContextManager.directory := ContextManager.directory before;
                 ContextManager.session := ContextManager.session before;
                 ContextManager.started := flag;
                 ContextManager.pinned := ContextManager.pinned before;
                 ContextManager.status := ContextManager.status before |}
         else before)
  ∧ (∀ message_id,
       ContextManager.answers approved read
         (ContextManager.set_pinned_message_id message_id written chat_data)
       = if here
         then {| ContextManager.directory := ContextManager.directory before;
                 ContextManager.session := ContextManager.session before;
                 ContextManager.started := ContextManager.started before;
                 ContextManager.pinned := message_id;
                 ContextManager.status := ContextManager.status before |}
         else before)
  ∧ (∀ text,
       ContextManager.answers approved read
         (ContextManager.set_current_status text written chat_data)
       = if here
         then {| ContextManager.directory := ContextManager.directory before;
                 ContextManager.session := ContextManager.session before;
                 ContextManager.started := ContextManager.started before;
                 ContextManager.pinned := ContextManager.pinned before;
                 ContextManager.status := text |}
         else before).
Proof.
  cbv zeta. rewrite !answers_of_stored.
  unfold ContextManager.set_current_directory, ContextManager.set_session_id,
    ContextManager.set_session_started, ContextManager.set_pinned_message_id,
    ContextManager.set_current_status.
  repeat split; intros v; rewrite answers_of_stored, assign_stores;
    (case_decide as E;
     [rewrite bool_decide_eq_true_2 by done
     |rewrite bool_decide_eq_false_2 by done]); reflexivity.
Qed.


(** ** Sending the response *)

Section SendLoop.

Import Responses.

Variable telegram : list Sent → Reply → option Py.str.
Variable message_id : Z.

Implicit Types (log : list Sent) (m : FormattedMessage).

Lemma send_message_extends i m log :
  ∃ new, (send_message telegram message_id i m log).1 = log ++ new
         ∧ 1 ≤ length new ≤ 4.
Proof.
  unfold send_message, try_reply.
  repeat (destruct (telegram _ _); simpl);
    rewrite <- ?app_assoc; eexists; (split; [done|]); simpl; lia.
Qed.

Lemma send_messages_extends ms : ∀ i log,
  ∃ new, (send_messages telegram message_id i ms log).1 = log ++ new
         ∧ length new ≤ 4 * length ms.
Proof.
  induction ms as [|m ms IH]; intros i log; simpl.
  { exists []. rewrite app_nil_r. split; [done|simpl; lia]. }
  destruct (send_message_extends i m log) as (n1 & H1 & L1).
  destruct (send_message telegram message_id i m log) as [log1 [e|]];
    simpl in *.
  - exists n1. split; [done|lia].
  - destruct (IH (S i) log1) as (n2 & H2 & L2).
    exists (n1 ++ n2). rewrite H2, H1, <- app_assoc, length_app.
    split; [done|lia].
Qed.

Lemma send_messages_all_taken ms : ∀ i log,
  takes_all telegram →
  send_messages telegram message_id i ms log
  = (log ++ imap (λ k m, (as_formatted message_id (i + k) m, true)) ms, None).
Proof.
  induction ms as [|m ms IH]; intros i log H; simpl.
  { by rewrite app_nil_r. }
  unfold send_message, try_reply at 1. rewrite H. rewrite IH by done.
  rewrite <- app_assoc. simpl. rewrite Nat.add_0_r. do 3 f_equal.
  apply imap_ext. intros k x _. simpl. do 2 f_equal. lia.
Qed.

Lemma send_message_plain_taken i m log :
  takes_plain telegram →
  ∃ new, send_message telegram message_id i m log = (log ++ new, None)
         ∧ length new ≤ 2 ∧ delivered new m.
Proof.
  intros H. unfold send_message, try_reply.
  destruct (telegram log _) eqn:E1; simpl.
  - rewrite H by done. rewrite <- app_assoc. eexists. split; [done|].
    split; [simpl; lia|]. eexists. split; [right; left|]. simpl. auto.
  - eexists. split; [done|]. split; [simpl; lia|].
    eexists. split; [left|]. simpl. auto.
Qed.

Lemma delivered_mono log log' m :
  delivered log m → delivered (log' ++ log) m ∧ delivered (log ++ log') m.
Proof.
  intros (r & Hin & H). split; exists r; (split; [|done]);
    apply elem_of_app; auto.
Qed.

Lemma send_messages_plain_taken ms : ∀ i log,
  takes_plain telegram →
  ∃ new, send_messages telegram message_id i ms log = (log ++ new, None)
         ∧ length new ≤ 2 * length ms ∧ Forall (delivered new) ms.
Proof.
  induction ms as [|m ms IH]; intros i log H; simpl.
  { exists []. rewrite app_nil_r. split; [done|]. split; [simpl; lia|done]. }
  destruct (send_message_plain_taken i m log H) as (n1 & -> & L1 & D1).
  destruct (IH (S i) (log ++ n1) H) as (n2 & -> & L2 & D2).
  exists (n1 ++ n2). rewrite <- app_assoc, length_app.
  split; [done|]. split; [lia|]. constructor.
  - exact (proj2 (delivered_mono n1 n2 m D1)).
  - eapply Forall_impl; [exact D2|]. intros x Hx.
    exact (proj1 (delivered_mono n2 n1 x Hx)).
Qed.

End SendLoop.

(** X16.  When Telegram takes every call, the response loop makes exactly
    one call per formatted message, in order, each with the message's own
    text, parse mode and keyboard, and only the first as a reply to the
    user's message. *)
Theorem response_sent_once_each
    (telegram : list Responses.Sent → Responses.Reply → option Py.str)
    (message_id : Z) (ms : list Responses.FormattedMessage) :
  Responses.takes_all telegram →
  Responses.send_responses telegram message_id true ms
  = (imap (λ i m, (Responses.as_formatted message_id i m, true)) ms, None).
Proof.
  intros H. unfold Responses.send_responses.
  by rewrite send_messages_all_taken.
Qed.

Lemma response_sent_once_each_witness :
  let hello := {| Responses.text := «"Hello"»;
                  Responses.parse_mode := Some "Markdown"%string;
                  Responses.reply_markup := None |} in
  let bye := {| Responses.text := «"Bye"»;
                Responses.parse_mode := None;
                Responses.reply_markup := Some 3 |} in
  Responses.takes_all (λ _ _, None)
  ∧ (Responses.send_responses (λ _ _, None) 42 true [hello; bye]).1
    = [(Responses.as_formatted 42 0 hello, true);
       (Responses.as_formatted 42 1 bye, true)].
Proof.
  assert (H : Responses.takes_all (λ _ _, None)) by done.
  split; [exact H|].
  by rewrite (response_sent_once_each (λ _ _, None) 42 _ H).
Defined.

(** X17.  When Telegram takes every call made without parse mode, the
    response loop is never left by an exception, makes at most two calls
    per message, and delivers every message with its keyboard, as
    formatted or as plain text. *)
Theorem response_falls_back_to_plain
    (telegram : list Responses.Sent → Responses.Reply → option Py.str)
    (message_id : Z) (ms : list Responses.FormattedMessage) :
  Responses.takes_plain telegram →
  ∃ log,
    Responses.send_responses telegram message_id true ms = (log, None)
    ∧ length log ≤ 2 * length ms
    ∧ Forall (Responses.delivered log) ms.
Proof.
  intros H. unfold Responses.send_responses.
  destruct (send_messages_plain_taken telegram message_id ms 0 [] H)
    as (new & -> & L & D).
  by exists new.
Qed.

Lemma response_falls_back_to_plain_witness :
  let picky : list Responses.Sent → Responses.Reply → option Py.str :=
    λ _ r, match Responses.r_parse_mode r with
           | Responses.Passed (Some _) => Some «"Can't parse entities"»
           | _ => None
           end in
  let hello := {| Responses.text := «"*Hello"»;
                  Responses.parse_mode := Some "Markdown"%string;
                  Responses.reply_markup := None |} in
  Responses.takes_plain picky
  ∧ ∃ log, Responses.send_responses picky 42 true [hello] = (log, None)
           ∧ length log ≤ 2.
Proof.
  set (picky := λ (_ : list Responses.Sent) (r : Responses.Reply),
         match Responses.r_parse_mode r with
         | Responses.Passed (Some _) => Some «"Can't parse entities"»
         | _ => None
         end).
  assert (H : Responses.takes_plain picky).
  { intros log r Hr. unfold picky. by rewrite Hr. }
  cbv zeta. split; [exact H|].
  destruct (response_falls_back_to_plain picky 42
              [{| Responses.text := «"*Hello"»;
                  Responses.parse_mode := Some "Markdown"%string;
                  Responses.reply_markup := None |}] H) as (log & Hl & Hn & _).
  exists log. split; [exact Hl|exact Hn].
Defined.

(** X18.  Whatever Telegram answers, the response loop makes at most four
    calls per formatted message (as formatted, without parse mode, also
    without keyboard, then the failure notice), plus one report when the
    loop was left by an exception; and when the response is not to be sent
    it makes no call. *)
Theorem response_attempts_bounded
    (telegram : list Responses.Sent → Responses.Reply → option Py.str)
    (message_id : Z) (should_send : bool)
    (ms : list Responses.FormattedMessage) :
  length (Responses.send_responses telegram message_id should_send ms).1
  ≤ 4 * length ms + 1
  ∧ Responses.send_responses telegram message_id false ms = ([], None).
Proof.
  split; [|done]. unfold Responses.send_responses.
  destruct should_send; [|simpl; lia].
  destruct (send_messages_extends telegram message_id ms 0 [])
    as (new & Hn & L).
  destruct (Responses.send_messages telegram message_id 0 ms [])
    as [log [e|]]; simpl in *; subst log; [|lia].
  unfold Responses.try_reply. destruct (telegram _ _); simpl;
    rewrite length_app; simpl; lia.
Qed.


(** ** What Telegram shows after a render *)

Section Shown.

Variable transport : list Call → Call → Outcome.
Hypothesis accepted : accepts transport.

Implicit Types (s : StreamState) (chunk : Py.str).

Lemma update_chunk_records i chunk s :
  aligned s → i ≤ length (messages s) →
  let r := update_chunk transport i chunk s in
  r.2 = None ∧ aligned r.1 ∧ S i ≤ length (messages r.1)
  ∧ message_contents r.1 !! i = Some chunk
  ∧ ∀ j, j ≠ i → message_contents r.1 !! j = message_contents s !! j.
Proof.
  unfold aligned. intros Ha Hi. cbv zeta. unfold update_chunk.
  destruct (Nat.ltb_spec i (length (messages s))) as [Hlt|Hge].
  - destruct (Nat.ltb_spec i (length (message_contents s))); [|lia].
    case_bool_decide as E; simpl.
    + repeat split; try done.
    + destruct (lookup_lt_is_Some_2 (messages s) i Hlt) as [m Hm].
      rewrite Hm. destruct (accepted (calls s) (EditText m chunk (Some "Markdown"%string)))
        as [m' ->]. simpl. rewrite length_insert.
      repeat split; try done.
      * by apply list_lookup_insert_eq.
      * intros j Hj. by apply list_lookup_insert_ne.
  - destruct (accepted (calls s) (ReplyText chunk (Some "Markdown"%string)))
      as [m ->]. simpl. rewrite !length_app. simpl.
    repeat split; try lia.
    + rewrite lookup_app_r by lia. replace (i - length (message_contents s)) with 0 by lia.
      done.
    + intros j Hj. destruct (Nat.lt_ge_cases j (length (message_contents s))).
      * by rewrite lookup_app_l.
      * rewrite lookup_app_r by lia.
        rewrite (lookup_ge_None_2 (message_contents s)) by lia.
        apply lookup_ge_None_2. simpl. lia.
Qed.

Lemma update_chunks_records chunks : ∀ i s,
  aligned s → i ≤ length (messages s) →
  let r := update_chunks transport i chunks s in
  r.2 = None ∧ aligned r.1 ∧ i + length chunks ≤ length (messages r.1)
  ∧ (∀ k, k < length chunks →
       message_contents r.1 !! (i + k) = chunks !! k)
  ∧ ∀ j, j < i → message_contents r.1 !! j = message_contents s !! j.
Proof.
  induction chunks as [|chunk rest IH]; intros i s Ha Hi; cbv zeta; simpl.
  { repeat split; try done; try lia. }
  destruct (update_chunk_records i chunk s Ha Hi) as (Hn & Ha1 & Hi1 & Hc & Ho).
  destruct (update_chunk transport i chunk s) as [s1 r1]. simpl in *. subst r1.
  destruct (IH (S i) s1 Ha1 Hi1) as (Hn2 & Ha2 & Hi2 & Hc2 & Ho2).
  repeat split; try done; try lia.
  - intros [|k] Hk.
    + rewrite Nat.add_0_r, Ho2 by lia. done.
    + replace (i + S k) with (S i + k) by lia. apply Hc2. lia.
  - intros j Hj. rewrite Ho2 by lia. apply Ho. lia.
Qed.

End Shown.

Lemma split_chunks_concat text : concat (split_chunks text) = text.
Proof.
  assert (Hpos : 0 < CHUNK_SIZE) by (unfold CHUNK_SIZE; lia).
  destruct (div_up_least (length text) CHUNK_SIZE Hpos) as [Hcover _].
  rewrite split_chunks_windows, windows_concat. by apply take_ge.
Qed.

Lemma split_chunks_some text : text ≠ [] → 1 ≤ length (split_chunks text).
Proof.
  intros H. pose proof (split_chunks_concat text) as Hc.
  destruct (split_chunks text); [by subst|simpl; lia].
Qed.

(** X19.  When Telegram accepts every call, a render pass over a printable
    transcript that is not blank raises nothing and leaves the recorded
    message contents equal, message by message, to the chunks of the
    transcript: the first messages, read in order, spell the combined
    text.  At least one message then exists, so a response without error
    sign is not sent a second time after the turn. *)
Theorem render_shows_transcript
    (py_str : Py.val → Py.str) (transport : list Call → Call → Outcome)
    (s : StreamState) (text : Py.str) :
  accepts transport → aligned s →
  events s ≠ [] → combined_text py_str (events s) = Fine text →
  Py.strip text ≠ [] →
  let r := update_stream_message py_str transport s in
  let n := length (split_chunks text) in
  r.2 = None
  ∧ take n (message_contents r.1) = split_chunks text
  ∧ concat (take n (message_contents r.1)) = text
  ∧ messages r.1 ≠ []
  ∧ ∀ texts,
      Forall (λ t, Py.contains [10060%N] t = false
                   ∧ Py.contains [128683%N] t = false) texts →
      should_send texts r.1 = false.
Proof.
  intros Hacc Ha Hev Htext Hblank. cbv zeta.
  unfold update_stream_message. simpl.
  destruct (events s) as [|e evs] eqn:E; [done|]. rewrite Htext.
  destruct (Py.strip text) as [|c rest] eqn:Es; [done|].
  destruct (update_chunks_records transport Hacc (split_chunks text) 0
              (record_render s) Ha ltac:(lia))
    as (Hn & Ha' & Hlen & Hc & _).
  set (r := update_chunks transport 0 (split_chunks text) (record_render s))
    in *.
  assert (Htake : take (length (split_chunks text)) (message_contents r.1)
                  = split_chunks text).
  { apply list_eq. intros k.
    destruct (Nat.lt_ge_cases k (length (split_chunks text))) as [Hk|Hk].
    - rewrite lookup_take_lt by done. apply (Hc k Hk).
    - rewrite lookup_take_ge by done. symmetry. by apply lookup_ge_None_2. }
  assert (Hone : 1 ≤ length (split_chunks text)).
  { apply split_chunks_some. intros ->. done. }
  assert (Hmsg : messages r.1 ≠ []).
  { intros Hnil. rewrite Hnil in Hlen. simpl in Hlen. lia. }
  split; [done|]. split; [done|]. split.
  { rewrite Htake. apply split_chunks_concat. }
  split; [done|].
  intros texts Hno. unfold should_send.
  rewrite bool_decide_eq_false_2 by done. rewrite orb_false_r.
  induction Hno as [|t ts [H1 H2] Hts IH]; [done|].
  simpl. by rewrite H1, H2, IH.
Qed.

Lemma render_shows_transcript_witness :
  let s := set_events [TextEvent «"Hello"»] initial in
  accepts Scenario.accepting ∧ aligned s
  ∧ events s ≠ []
  ∧ combined_text Scenario.str_of_val (events s) = Fine «"Hello"»
  ∧ Py.strip «"Hello"» ≠ []
  ∧ message_contents
      (update_stream_message Scenario.str_of_val Scenario.accepting s).1
    = [«"Hello"»].
Proof.
  assert (Hacc : accepts Scenario.accepting) by (intros h c; by eexists).
  split; [exact Hacc|]. split; [reflexivity|]. split; [discriminate|].
  split; [reflexivity|]. split; [vm_compute; discriminate|].
  destruct (render_shows_transcript Scenario.str_of_val Scenario.accepting
              (set_events [TextEvent «"Hello"»] initial) «"Hello"»
              Hacc eq_refl ltac:(discriminate) eq_refl
              ltac:(vm_compute; discriminate)) as (_ & _ & _ & _ & _).
  vm_compute. reflexivity.
Defined.

Section Unchanged.

Variable transport : list Call → Call → Outcome.

Lemma update_chunks_unchanged chunks : ∀ i s,
  i + length chunks ≤ length (messages s) →
  (∀ k, k < length chunks → message_contents s !! (i + k) = chunks !! k) →
  update_chunks transport i chunks s = (s, None).
Proof.
  induction chunks as [|chunk rest IH]; intros i s Hlen Hc; simpl in *;
    [done|].
  assert (H0 : message_contents s !! i = Some chunk).
  { specialize (Hc 0 ltac:(lia)). by rewrite Nat.add_0_r in Hc. }
  unfold update_chunk.
  destruct (Nat.ltb_spec i (length (messages s))); [|lia].
  pose proof (lookup_lt_Some _ _ _ H0).
  destruct (Nat.ltb_spec i (length (message_contents s))); [|lia].
  rewrite bool_decide_eq_true_2 by done. simpl.
  apply IH; [lia|]. intros k Hk.
  specialize (Hc (S k) ltac:(lia)). simpl in Hc.
  by replace (S i + k) with (i + S k) by lia.
Qed.

End Unchanged.

(** X20.  A transcript that did not change is not sent again: after a
    render pass that Telegram accepted, a second pass over the same log
    makes no call and changes nothing but the count of renders; it ends
    as the first pass did (with the same exception when a tool input
    cannot be printed, with none otherwise). *)
Theorem unchanged_transcript_sent_once
    (py_str : Py.val → Py.str) (transport : list Call → Call → Outcome)
    (s : StreamState) :
  accepts transport → aligned s →
  let first := update_stream_message py_str transport s in
  update_stream_message py_str transport first.1
  = (record_render first.1, first.2).
Proof.
  intros Hacc Ha. cbv zeta.
  pose proof (update_stream_message_frame py_str transport s) as (He & _ & _).
  set (once := update_stream_message py_str transport s) in *.
  assert (Hr : events (record_render once.1) = events s) by exact He.
  unfold update_stream_message at 1. rewrite Hr.
  assert (Honce : once = update_stream_message py_str transport s) by done.
  unfold update_stream_message in Honce.
  change (events (record_render s)) with (events s) in Honce.
  destruct (events s) as [|e evs] eqn:E; [by rewrite Honce|].
  destruct (combined_text py_str (e :: evs)) as [text|x] eqn:Ht;
    [|by rewrite Honce].
  destruct (Py.strip text) as [|c rest] eqn:Es; [by rewrite Honce|].
  destruct (update_chunks_records transport Hacc (split_chunks text) 0
              (record_render s) Ha ltac:(lia))
    as (Hn & Ha' & Hlen & Hc & _).
  rewrite <- Honce in *. rewrite Hn.
  apply (update_chunks_unchanged transport (split_chunks text) 0
           (record_render once.1)); [exact Hlen|exact Hc].
Qed.

Lemma unchanged_transcript_sent_once_witness :
  let s := set_events [TextEvent «"Hello"»] initial in
  let first := update_stream_message Scenario.str_of_val Scenario.accepting s in
  accepts Scenario.accepting ∧ aligned s
  ∧ calls (update_stream_message Scenario.str_of_val Scenario.accepting
             first.1).1
    = [ReplyText «"Hello"» (Some "Markdown"%string)].
Proof.
  assert (Hacc : accepts Scenario.accepting) by (intros h c; by eexists).
  split; [exact Hacc|]. split; [reflexivity|].
  rewrite (unchanged_transcript_sent_once Scenario.str_of_val
             Scenario.accepting (set_events [TextEvent «"Hello"»] initial)
             Hacc eq_refl).
  vm_compute. reflexivity.
Defined.

Section TextToLog.

Implicit Types (l : Loop) (evs : list Event).

Lemma text_blocks_updates texts : ∀ l,
  total_blocks_seen (state l) ≤ current_block_index l →
  growing (current_text_content (state l)) texts →
  ∃ deltas,
    yielded (process_blocks l (TextBlock <$> texts))
    = yielded l ++ (text_update <$> deltas)
    ∧ Forall (λ d, d ≠ []) deltas
    ∧ current_text_content (state l) ++ concat deltas
      = default (current_text_content (state l)) (last texts).
Proof.
  induction texts as [|text rest IH]; intros l Hidx Hgrow.
  - exists []. simpl. by rewrite !app_nil_r.
  - destruct Hgrow as [[delta ->] Hrest].
    unfold process_blocks in *. cbn [fmap list_fmap foldl].
    rewrite process_text_block by done.
    rewrite drop_app_length, last_after_first.
    destruct delta as [|d delta].
    + rewrite app_nil_r in *.
      destruct (IH {| state := state l;
                      current_block_index := current_block_index l + 1;
                      yielded := yielded l |})
        as (ds & Hy & Hn & Hc); simpl; [lia | done |].
      by exists ds.
    + destruct (IH {| state :=
                        {| total_blocks_seen := total_blocks_seen (state l);
                           current_text_content :=
                             current_text_content (state l) ++ d :: delta |};
                      current_block_index := current_block_index l + 1;
                      yielded := yielded l ++ [text_update (d :: delta)] |})
        as (ds & Hy & Hn & Hc); simpl in *; [lia | done |].
      exists ((d :: delta) :: ds). split; [|split].
      * rewrite Hy. by rewrite <- app_assoc.
      * by constructor.
      * rewrite <- Hc. simpl. by rewrite <- app_assoc.
Qed.

Lemma text_updates_merge deltas : ∀ evs c,
  Forall (λ d, d ≠ []) deltas →
  foldl (λ evs u, log_step u evs) (evs ++ [TextEvent c]) (text_update <$> deltas)
  = evs ++ [TextEvent (c ++ concat deltas)].
Proof.
  induction deltas as [|d ds IH]; intros evs c H; simpl.
  { by rewrite app_nil_r. }
  apply Forall_cons in H as [Hd H].
  assert (Hstep : log_step (text_update d) (evs ++ [TextEvent c])
                  = evs ++ [TextEvent (c ++ d)]).
  { unfold log_step. simpl. destruct d; [done|]. simpl.
    apply merge_text_after_text. }
  rewrite Hstep, IH by done. by rewrite <- app_assoc.
Qed.

End TextToLog.

(** X21.  The tracker and the event log compose: for the first turn of a
    session whose assistant messages hold only text blocks, each extending
    the one before, ending with a result message, the updates
    [stream_message] yields, applied in order to the empty event log,
    leave exactly one text entry holding the last block's text. *)
Theorem streamed_text_reaches_log
    (session_states : gmap Py.str State) (session_id : Py.str)
    (messages : list (list Py.str)) (final : Py.str) :
  session_states !! session_id = None →
  growing [] (concat messages) →
  last (concat messages) = Some final → final ≠ [] →
  foldl (λ evs u, log_step u evs) []
    (stream_message session_states session_id None
       (((λ texts, Recv (AssistantMessage (TextBlock <$> texts))) <$> messages)
        ++ [Recv (ResultMessage false None)])).1
  = [TextEvent final].
Proof.
  intros Hnew Hgrow Hlast Hfinal. unfold stream_message. rewrite Hnew. simpl.
  set (l0 := {| state := fresh; current_block_index := 0;
                yielded := [progress_update «"Starting Claude Agent..."» 0] |}).
  assert (Hloop : ∀ l rest,
            receive_loop l
              (((λ texts, Recv (AssistantMessage (TextBlock <$> texts)))
                  <$> messages) ++ rest)
            = receive_loop (process_blocks l (TextBlock <$> concat messages))
                rest).
  { clear. induction messages as [|m ms IH]; intros l rest; simpl; [done|].
    rewrite IH, fmap_app. by rewrite process_blocks_app. }
  rewrite Hloop. simpl.
  destruct (text_blocks_updates (concat messages) l0 (Nat.le_refl 0) Hgrow)
    as (deltas & Hy & Hn & Hc).
  change (current_text_content (state l0)) with (@nil N) in Hc.
  rewrite Hlast in Hc. simpl in Hc.
  cbn [receive_loop]. unfold yield. cbn [yielded fst]. rewrite Hy.
  change (yielded l0) with [progress_update «"Starting Claude Agent..."» 0].
  rewrite !foldl_app. cbn [foldl app].
  change (log_step (progress_update «"Starting Claude Agent..."» 0) [])
    with (@nil Event).
  destruct deltas as [|d ds]; [simpl in Hc; by subst|].
  apply Forall_cons in Hn as [Hd Hn]. cbn [fmap list_fmap foldl].
  assert (Hfirst : log_step (text_update d) [] = [] ++ [TextEvent d]).
  { unfold log_step. simpl. by destruct d. }
  rewrite Hfirst, text_updates_merge by done. simpl in Hc. rewrite Hc.
  reflexivity.
Qed.

Lemma streamed_text_reaches_log_witness :
  (∅ : gmap Py.str State) !! Scenario.session = None
  ∧ growing [] (concat [[«"Hel"»]; [«"Hello"»]])
  ∧ last (concat [[«"Hel"»]; [«"Hello"»]]) = Some «"Hello"»
  ∧ «"Hello"» ≠ []
  ∧ foldl (λ evs u, log_step u evs) []
      (stream_message ∅ Scenario.session None
         [Recv (AssistantMessage [TextBlock «"Hel"»]);
          Recv (AssistantMessage [TextBlock «"Hello"»]);
          Recv (ResultMessage false None)]).1
    = [TextEvent «"Hello"»].
Proof.
  assert (Hg : growing [] (concat [[«"Hel"»]; [«"Hello"»]])).
  { simpl. split; [apply prefix_nil|]. split; [by exists «"lo"»|done]. }
  split; [reflexivity|]. split; [exact Hg|]. split; [reflexivity|].
  split; [discriminate|].
  exact (streamed_text_reaches_log ∅ Scenario.session
           [[«"Hel"»]; [«"Hello"»]] «"Hello"» eq_refl Hg eq_refl
           ltac:(discriminate)).
Defined.
